(** * Consumer-offset collection of nri-kafka: [conoffsetcollect/collect.go]

    A shallow embedding of [Collect] and [setMetrics] and the properties
    the specification states about them.

    [Collect] is an orchestrator: almost everything it does is a call to
    a collaborator (the zookeeper connection, the sarama client and
    cluster admin, the integration SDK, the logger, and helpers of the
    same package that live in other files).  The embedding keeps the
    control flow of the Go code as it is written and records every such
    call, with its arguments and its result, in a history of events. *)

From stdpp Require Import gmap strings list fin_maps pretty.

(** ** Data *)

(** A Go [error] value that is not nil; [Error] is its [Error()] method.
    A possibly-nil error is an [option error]. *)
Record error : Type := mkError { Error : string }.

(** [errors.New(text)]. *)
Definition errors_New (text : string) : error := mkError text.

(** [fmt.Errorf(prefix + %s, err)]: every format string of the file ends
    in its only verb, [%s], applied to an error. *)
Definition fmt_Errorf (prefix : string) (err : error) : error :=
  mkError (prefix +:+ Error err).

(** [type partitionOffsets struct]: the three gauges are [*int64], nil
    when the value is not known. *)
Record partitionOffsets : Type := mkPartitionOffsets {
  Topic : string;
  Partition : string;
  ConsumerOffset : option Z;
  HighWaterMark : option Z;
  ConsumerLag : option Z
}.

(** [type TopicPartitions map[string][]int32]. *)
Abbreviation TopicPartitions := (gmap string (list Z)).

(** Modelled from the spec: the type of the two snapshots handed to
    [populateOffsetStructs] is declared in a file that is not part of the
    sources.  Section 3 of the specification gives it: a mapping from
    (topic, partition) to an optional integer. *)
Abbreviation Snapshot := (gmap (string * Z) (option Z)).

(** [*regexp.Regexp], used through [MatchString] only. *)
Record Regexp : Type := mkRegexp { MatchString : string → bool }.

(** The fields of [args.GlobalArgs] that the file reads.
    [ConsumerGroupRegex] is a pointer: [None] is nil. *)
Record ArgumentList : Type := mkArgs {
  ConsumerGroupRegex : option Regexp;
  ConsumerGroups : gmap string TopicPartitions;
  ClusterName : string
}.

(** [integration.IDAttribute] and [metric.Attribute]: key and value. *)
Record Attribute : Type := mkAttribute { Key : string; Value : string }.

(** The four levels of the SDK's logger, and the arguments the file's
    log calls pass for the verbs of their format strings. *)
Inductive Level : Type := LDebug | LInfo | LWarn | LError.

Inductive LogArg : Type :=
  | AString (s : string)
  | AStrings (l : list string)
  | AError (e : error).

(** [sarama.GroupDescription], of which [Collect] reads the identifier
    and passes the members on; [M] is the type of the member map. *)
Record GroupDescription (M : Type) : Type := mkGroupDescription {
  GroupId : string;
  Members : M
}.

Arguments mkGroupDescription {M} _ _.
Arguments GroupId {M} _.
Arguments Members {M} _.

(** The return statements of [Collect], by their line in collect.go. *)
Inductive ReturnSite : Type :=
  | Line31 | Line41 | Line52 | Line57 | Line66 | Line123 | Line126.

(** ** The environment of [Collect]

    [World] is the state of everything outside the function: the
    cluster, zookeeper, the integration being filled.  A call reads and
    changes it, so the same call made twice may answer differently.
    The second group of fields are functions of the package
    [conoffsetcollect] whose files are not part of the sources; [Collect]
    only calls them.

    The tasks that line 81 starts run concurrently with [Collect] and
    with each other; they are calls of [collectOffsetsForConsumerGroup],
    of another file, which is handed the two handles, the group, the
    shared integration and a pointer to the wait group, and which can
    read [args.GlobalArgs].  Between the first go statement and
    [wg.Wait()] of line 95 [Collect] itself makes no call that reads the
    world, so all that [Collect] can see of the tasks is the world in
    which [wg.Wait()] returns: [WaitGroup_Wait args n tasks w] is that
    world, for the call made in the world [w] with the counter of the
    wait group raised to [n] by [Collect] and the [tasks] started.  The
    model follows the runs in which that call returns. *)
Record Env : Type := mkEnv {
  World : Type;
  Client : Type;
  ClusterAdmin : Type;
  MemberMap : Type;
  Entity : Type;
  MetricSet : Type;
  (* zookeeper.Connection *)
  CreateClient : World → (Client * option error) * World;
  CreateClusterAdmin : World → (ClusterAdmin * option error) * World;
  (* connection.Client and sarama.ClusterAdmin *)
  Client_Close : Client → World → option error * World;
  ClusterAdmin_Close : ClusterAdmin → World → option error * World;
  ListConsumerGroups :
    ClusterAdmin → World → (gmap string string * option error) * World;
  DescribeConsumerGroups :
    ClusterAdmin → list string → World →
    (list (GroupDescription MemberMap) * option error) * World;
  (* integration.Integration, integration.Entity, metric.Set *)
  Integration_Entity :
    string → string → Attribute → World → (Entity * option error) * World;
  Metadata_Name : Entity → string;
  NewMetricSet : Entity → string → list Attribute → World → MetricSet * World;
  MarshalMetrics : MetricSet → partitionOffsets → World → option error * World;
  (* package conoffsetcollect, other files *)
  fillTopicPartitions :
    string → TopicPartitions → Client → World → TopicPartitions * World;
  getConsumerOffsets :
    string → TopicPartitions → Client → World → (Snapshot * option error) * World;
  getHighWaterMarks :
    TopicPartitions → Client → World → (Snapshot * option error) * World;
  populateOffsetStructs : Snapshot → Snapshot → list partitionOffsets;
  (* sync.WaitGroup and the started calls of collectOffsetsForConsumerGroup *)
  WaitGroup_Wait :
    ArgumentList → Z → list (Client * ClusterAdmin * string * MemberMap) →
    World → World;
  (* the Go runtime: the order in which one range statement visits a map;
     the language promises every entry once and no order *)
  rangeMap : ∀ V : Type, gmap string V → list (string * V);
  rangeMap_perm : ∀ (V : Type) (m : gmap string V), rangeMap V m ≡ₚ map_to_list m
}.

Arguments rangeMap e {V} m.

(** A started task: the arguments of the go statement of line 81 that
    differ from task to task or belong to this run. *)
Definition Task (E : Env) : Type := Client E * ClusterAdmin E * string * MemberMap E.

(** ** Histories

    One event per call that leaves the function, with the arguments and
    the answer; [EGo] is the go statement of line 81 (the task itself is
    [collectOffsetsForConsumerGroup], of another file, and runs
    concurrently: its own calls are no part of this history, what it
    did to the world is there when [wg.Wait()] returns), [EWgAdd] and
    [EWgWait] are the calls on the wait group. *)
Inductive Event (E : Env) : Type :=
  | ECreateClient (r : Client E * option error)
  | ECreateClusterAdmin (r : ClusterAdmin E * option error)
  | EClientClose (c : Client E) (r : option error)
  | EAdminClose (a : ClusterAdmin E) (r : option error)
  | EListConsumerGroups (a : ClusterAdmin E) (r : gmap string string * option error)
  | EDescribeConsumerGroups (a : ClusterAdmin E) (ids : list string)
      (r : list (GroupDescription (MemberMap E)) * option error)
  | EWgAdd (delta : Z)
  | EGo (c : Client E) (a : ClusterAdmin E) (groupID : string) (members : MemberMap E)
  | EWgWait
  | ELog (lvl : Level) (format : string) (args : list LogArg)
  | EFillTopicPartitions (group : string) (topics : TopicPartitions) (c : Client E)
      (r : TopicPartitions)
  | EGetConsumerOffsets (group : string) (tp : TopicPartitions) (c : Client E)
      (r : Snapshot * option error)
  | EGetHighWaterMarks (tp : TopicPartitions) (c : Client E)
      (r : Snapshot * option error)
  | EEntity (name namespace : string) (id : Attribute) (r : Entity E * option error)
  | ENewMetricSet (e : Entity E) (name : string) (attrs : list Attribute) (r : MetricSet E)
  | EMarshalMetrics (ms : MetricSet E) (data : partitionOffsets) (r : option error).

Arguments ECreateClient {E} r.
Arguments ECreateClusterAdmin {E} r.
Arguments EClientClose {E} c r.
Arguments EAdminClose {E} a r.
Arguments EListConsumerGroups {E} a r.
Arguments EDescribeConsumerGroups {E} a ids r.
Arguments EWgAdd {E} delta.
Arguments EGo {E} c a groupID members.
Arguments EWgWait {E}.
Arguments ELog {E} lvl format args.
Arguments EFillTopicPartitions {E} group topics c r.
Arguments EGetConsumerOffsets {E} group tp c r.
Arguments EGetHighWaterMarks {E} tp c r.
Arguments EEntity {E} name namespace id r.
Arguments ENewMetricSet {E} e name attrs r.
Arguments EMarshalMetrics {E} ms data r.

(** ** A monad for function bodies

    A statement, run in a world, either goes on with a value ([Next]) or
    leaves the function through a return statement ([Return]); both ways
    it yields the new world and the events it caused. *)
Inductive Flow (R A : Type) : Type :=
  | Return (r : R)
  | Next (a : A).

Arguments Return {R A} r.
Arguments Next {R A} a.

Definition M (E : Env) (R A : Type) : Type :=
  World E → Flow R A * World E * list (Event E).

Definition ret {E R A} (a : A) : M E R A := λ w, (Next a, w, []).

Definition bind {E R A B} (m : M E R A) (k : A → M E R B) : M E R B :=
  λ w,
    match m w with
    | (Return r, w1, t1) => (Return r, w1, t1)
    | (Next a, w1, t1) =>
        match k a w1 with
        | (f, w2, t2) => (f, w2, t1 ++ t2)
        end
    end.

(** [return r] *)
Definition return_ {E R A} (r : R) : M E R A := λ w, (Return r, w, []).

(** A call of a collaborator: its answer in the current world, noted in
    the history by [ev]. *)
Definition call {E R A} (f : World E → A * World E) (ev : A → Event E) : M E R A :=
  λ w, match f w with (a, w1) => (Next a, w1, [ev a]) end.

(** A call that has no answer and does not touch the world. *)
Definition emit {E R} (ev : Event E) : M E R unit := λ w, (Next tt, w, [ev]).

(** [defer d] placed before [body]: [d] runs when the function returns,
    by whichever return statement, and cannot change what is returned
    (the results of [Collect] are unnamed). *)
Definition defer {E R A} (d : M E unit unit) (body : M E R A) : M E R A :=
  λ w,
    match body w with
    | (f, w1, t1) =>
        match d w1 with
        | (_, w2, t2) => (f, w2, t1 ++ t2)
        end
    end.

(** A whole function: it returns what its return statement gives. *)
Definition function {E R} (body : M E R R) : World E → R * World E * list (Event E) :=
  λ w,
    match body w with
    | (Return r, w1, t) | (Next r, w1, t) => (r, w1, t)
    end.

(** [for _, x := range l], the loop's variables in [st]. *)
Fixpoint for_range {E R A S} (body : A → S → M E R S) (l : list A) (st : S) : M E R S :=
  match l with
  | [] => ret st
  | x :: l' => bind (body x st) (for_range body l')
  end.

(** A call of another function of the model. *)
Definition invoke {E R A} (f : World E → A * World E * list (Event E)) : M E R A :=
  λ w, match f w with (a, w1, t) => (Next a, w1, t) end.

(** stdpp's notation [x ← m; k] for [bind m (λ x, k)]. *)
Global Instance M_ret {E R} : MRet (M E R) := λ A, ret.
Global Instance M_bind {E R} : MBind (M E R) := λ A B k m, bind m k.

(** ** The functions of collect.go *)

(** The variables of the loop of lines 73-85, declared in lines 69-72.
    [numCollected] is a Go int; it counts elements of a slice, whose
    length is an int, so it never wraps. *)
Record Selection : Type := mkSelection {
  unmatchedConsumerGroups : list string;
  numCollected : Z;
  skippedConsumerGroups : list string
}.

(** [var wg sync.WaitGroup], line 70, as [Collect] sees it: [counter] is
    what its calls of [Add] made the counter (zero at the declaration),
    [started] are the tasks that were started with a pointer to it, in
    the order of their go statements. *)
Record WaitGroup (E : Env) : Type := mkWaitGroup {
  counter : Z;
  started : list (Task E)
}.

Arguments mkWaitGroup {E} _ _.
Arguments counter {E} _.
Arguments started {E} _.

Section collect.
Variable E : Env.
(** [args.GlobalArgs], a package-level variable set before [Collect]
    is called. *)
Variable GlobalArgs : ArgumentList.

(** [log.Debug], [log.Info], [log.Warn], [log.Error]. *)
Definition log {R} (lvl : Level) (format : string) (args : list LogArg) : M E R unit :=
  emit (ELog lvl format args).

(** Lines 130-149. *)
Definition setMetrics (consumerGroup : string) (offsetData : list partitionOffsets)
    : World E → option error * World E * list (Event E) :=
  function (
    let clusterIDAttr := mkAttribute "clusterName" (ClusterName GlobalArgs) in
    '(groupEntity, err) ← call (Integration_Entity E consumerGroup "ka-consumerGroup" clusterIDAttr)
                               (EEntity consumerGroup "ka-consumerGroup" clusterIDAttr);
    match err with
    | Some _ => return_ err
    | None =>
        for_range (λ offsetData (_ : unit),
          let attrs :=
            [ mkAttribute "displayName" (Metadata_Name E groupEntity);
              mkAttribute "entityName" ("consumerGroup:" +:+ Metadata_Name E groupEntity) ] in
          metricSet ← call (NewMetricSet E groupEntity "KafkaOffsetSample" attrs)
                           (ENewMetricSet groupEntity "KafkaOffsetSample" attrs);
          err ← call (MarshalMetrics E metricSet offsetData)
                     (EMarshalMetrics metricSet offsetData);
          match err with
          | Some err =>
              log LError "Error Marshaling offset metrics for consumer group '%s': %s"
                [AString consumerGroup; AString (Error err)]
          | None => mret tt
          end) offsetData tt;;
        mret None
    end).

(** [wg.Add(delta)]. *)
Definition wg_Add {R} (wg : WaitGroup E) (delta : Z) : M E R (WaitGroup E) :=
  emit (EWgAdd delta);;
  mret (mkWaitGroup (counter wg + delta)%Z (started wg)).

(** [go collectOffsetsForConsumerGroup(client, clusterAdmin, groupID,
    members, kafkaIntegration, &wg)]. *)
Definition go_collectOffsetsForConsumerGroup {R} (client : Client E)
    (clusterAdmin : ClusterAdmin E) (groupID : string) (members : MemberMap E)
    (wg : WaitGroup E) : M E R (WaitGroup E) :=
  emit (EGo client clusterAdmin groupID members);;
  mret (mkWaitGroup (counter wg) (started wg ++ [(client, clusterAdmin, groupID, members)])).

(** [wg.Wait()]: when it returns, the world is the one the tasks
    left. *)
Definition wg_Wait {R} (wg : WaitGroup E) : M E R unit :=
  call (λ w, (tt, WaitGroup_Wait E GlobalArgs (counter wg) (started wg) w))
       (λ _, EWgWait).

(** Lines 74-84, the body of the loop over the described groups. *)
Definition selectGroup {R} (regex : Regexp) (client : Client E)
    (clusterAdmin : ClusterAdmin E) (consumerGroup : GroupDescription (MemberMap E))
    (st : Selection * WaitGroup E) : M E R (Selection * WaitGroup E) :=
  let '(st, wg) := st in
  if MatchString regex (GroupId consumerGroup) then
    let numCollected := (numCollected st + 1)%Z in
    if decide (numCollected > 200)%Z then
      mret (mkSelection (unmatchedConsumerGroups st) numCollected
              (skippedConsumerGroups st ++ [GroupId consumerGroup]), wg)
    else
      wg ← wg_Add wg 1;
      wg ← go_collectOffsetsForConsumerGroup client clusterAdmin
             (GroupId consumerGroup) (Members consumerGroup) wg;
      mret (mkSelection (unmatchedConsumerGroups st) numCollected
              (skippedConsumerGroups st), wg)
  else
    mret (mkSelection (unmatchedConsumerGroups st ++ [GroupId consumerGroup])
            (numCollected st) (skippedConsumerGroups st), wg).

(** Lines 101-120, the body of the loop over the configured groups. *)
Definition collectConfiguredGroup {R} (client : Client E)
    (entry : string * TopicPartitions) (_ : unit) : M E R unit :=
  let consumerGroup := entry.1 in
  let topics := entry.2 in
  topicPartitions ← call (fillTopicPartitions E consumerGroup topics client)
                         (EFillTopicPartitions consumerGroup topics client);
  if decide (size topicPartitions = 0) then
    log LError "No topics specified for consumer group '%s'" [AString consumerGroup]
  else
    '(offsetData, err) ← call (getConsumerOffsets E consumerGroup topicPartitions client)
                              (EGetConsumerOffsets consumerGroup topicPartitions client);
    match err with
    | Some err =>
        log LInfo "Failed to collect consumerOffsets for group %s: %v"
          [AString consumerGroup; AError err]
    | None => mret tt
    end;;
    '(highWaterMarks, err) ← call (getHighWaterMarks E topicPartitions client)
                                  (EGetHighWaterMarks topicPartitions client);
    match err with
    | Some err =>
        log LInfo "Failed to collect highWaterMarks for group %s: %v"
          [AString consumerGroup; AError err]
    | None => mret tt
    end;;
    let offsetStructs := populateOffsetStructs E offsetData highWaterMarks in
    err ← invoke (setMetrics consumerGroup offsetStructs);
    match err with
    | Some err =>
        log LError "Error setting metrics for consumer group '%s': %s"
          [AString consumerGroup; AString (Error err)]
    | None => mret tt
    end.

(** Lines 33-37 and 43-47, the two deferred closures. *)
Definition closeClient (client : Client E) : M E unit unit :=
  err ← call (Client_Close E client) (EClientClose client);
  match err with
  | Some err => log LDebug "Error closing client connection: %s" [AString (Error err)]
  | None => mret tt
  end.

Definition closeClusterAdmin (clusterAdmin : ClusterAdmin E) : M E unit unit :=
  err ← call (ClusterAdmin_Close E clusterAdmin) (EAdminClose clusterAdmin);
  match err with
  | Some err => log LDebug "Error closing clusterAdmin connection: %s" [AString (Error err)]
  | None => mret tt
  end.

(** Lines 59-62: the slice is made with [len(consumerGroupMap)] zero
    values and every key of the map is then appended to it. *)
Definition consumerGroupList (consumerGroupMap : gmap string string) : list string :=
  fold_left (λ l entry, l ++ [entry.1]) (rangeMap E consumerGroupMap)
    (replicate (size consumerGroupMap) "").

(** Lines 51-95, the branch taken when the regex is configured.  [err]
    is the variable of that name declared in line 29 and last assigned
    in line 39, which line 51 reads. *)
Definition collectMatching (regex : Regexp) (client : Client E)
    (clusterAdmin : ClusterAdmin E) (err : option error)
    : M E (ReturnSite * option error) unit :=
  match err with
  | Some err =>
      return_ (Line52, Some (fmt_Errorf "failed to create cluster admin from client: " err))
  | None =>
      '(consumerGroupMap, err) ← call (ListConsumerGroups E clusterAdmin)
                                      (EListConsumerGroups clusterAdmin);
      match err with
      | Some err =>
          return_ (Line57, Some (fmt_Errorf "failed to get list of consumer groups: " err))
      | None =>
          let consumerGroupList := consumerGroupList consumerGroupMap in
          '(consumerGroups, err) ← call (DescribeConsumerGroups E clusterAdmin consumerGroupList)
                                        (EDescribeConsumerGroups clusterAdmin consumerGroupList);
          match err with
          | Some err =>
              return_ (Line66, Some (fmt_Errorf "failed to get consumer group descriptions: " err))
          | None =>
              '(st, wg) ← for_range (selectGroup regex client clusterAdmin) consumerGroups
                            (mkSelection [] 0 [], mkWaitGroup 0 []);
              (if decide (0 < length (unmatchedConsumerGroups st)) then
                 log LDebug "Skipped collecting consumer offsets for unmatched consumer groups %v"
                   [AStrings (unmatchedConsumerGroups st)]
               else mret tt);;
              (if decide (0 < length (skippedConsumerGroups st)) then
                 log LDebug "Reached 200 consumer group limit. Skipping consumer groups %v"
                   [AStrings (skippedConsumerGroups st)]
               else mret tt);;
              wg_Wait wg
          end
      end
  end.

(** Lines 97-121, the branch taken when only the mapping is configured. *)
Definition collectConfigured (client : Client E) : M E (ReturnSite * option error) unit :=
  log LWarn "Argument 'consumer_groups' is deprecated and will be removed in a future version. Use 'consumer_group_regex' instead." [];;
  for_range (collectConfiguredGroup client) (rangeMap E (ConsumerGroups GlobalArgs)) tt.

(** Lines 50-124, the choice between the two. *)
Definition collectSelected (client : Client E) (clusterAdmin : ClusterAdmin E)
    (err : option error) : M E (ReturnSite * option error) unit :=
  match ConsumerGroupRegex GlobalArgs with
  | Some regex => collectMatching regex client clusterAdmin err
  | None =>
      if decide (size (ConsumerGroups GlobalArgs) ≠ 0) then collectConfigured client
      else
        return_ (Line123, Some (errors_New "if consumer_offset is set, either consumer_group_regex or consumer_groups (deprecated) must also be set"))
  end.

(** Lines 28-127.  The result is the returned error together with the
    return statement that gave it. *)
Definition Collect : World E → (ReturnSite * option error) * World E * list (Event E) :=
  function (
    '(client, err) ← call (CreateClient E) ECreateClient;
    match err with
    | Some _ => return_ (Line31, err)
    | None =>
        defer (closeClient client) (
          '(clusterAdmin, err) ← call (CreateClusterAdmin E) ECreateClusterAdmin;
          match err with
          | Some _ => return_ (Line41, err)
          | None =>
              defer (closeClusterAdmin clusterAdmin) (
                collectSelected client clusterAdmin err;;
                mret (Line126, None))
          end)
    end).
End collect.

Arguments Collect E GlobalArgs w : rename.
Arguments setMetrics E GlobalArgs consumerGroup offsetData w : rename.

(** ** The lag assembler *)

Module LagAssembler.

(** Modelled from the spec: the record that section 4.5 of the
    specification gives for one (topic, partition) key.  The value of a
    key that a snapshot does not hold, or holds as absent, is absent;
    the lag is the difference when both values are present and absent
    otherwise.  The partition is written in decimal, the struct's
    field being a string. *)
Definition record (offsets hwms : Snapshot) (key : string * Z) : partitionOffsets :=
  let consumerOffset := default None (offsets !! key) in
  let highWaterMark := default None (hwms !! key) in
  {| Topic := key.1;
     Partition := pretty key.2;
     ConsumerOffset := consumerOffset;
     HighWaterMark := highWaterMark;
     ConsumerLag :=
       match highWaterMark, consumerOffset with
       | Some hwm, Some offset => Some (hwm - offset)%Z
       | _, _ => None
       end |}.

(** Modelled from the spec: [populateOffsetStructs] is called in line
    116 of collect.go and defined in a file that is not part of the
    sources.  Section 4.5 of the specification: one record per key in
    the union of the domains of the two snapshots. *)
Definition populateOffsetStructs (offsets hwms : Snapshot) : list partitionOffsets :=
  record offsets hwms <$> elements (dom offsets ∪ dom hwms).

(** The key a record was made for. *)
Definition key_is (key : string * Z) (r : partitionOffsets) : Prop :=
  Topic r = key.1 ∧ Partition r = pretty key.2.

Global Instance key_is_dec key r : Decision (key_is key r).
Proof. unfold key_is. apply _. Defined.

End LagAssembler.

(** ** Environments to run the model in

    A scripted environment: the world is the number of calls made so
    far, the handles are trivial, a map is visited in the order of
    [map_to_list], and the helpers answer as the script says.  Every
    started task counts as one call when the wait for the tasks
    returns.  The assembler is the one of the specification. *)
Definition scripted
    (clientErr adminErr : option error)
    (listing : gmap string string * option error)
    (describe : list string → list (GroupDescription unit) * option error)
    (fill : string → TopicPartitions → TopicPartitions)
    (offsets : string → TopicPartitions → Snapshot * option error)
    (marks : TopicPartitions → Snapshot * option error) : Env :=
  {| World := nat;
     Client := unit;
     ClusterAdmin := unit;
     MemberMap := unit;
     Entity := string;
     MetricSet := unit;
     CreateClient := λ w, ((tt, clientErr), S w);
     CreateClusterAdmin := λ w, ((tt, adminErr), S w);
     Client_Close := λ _ w, (None, S w);
     ClusterAdmin_Close := λ _ w, (None, S w);
     ListConsumerGroups := λ _ w, (listing, S w);
     DescribeConsumerGroups := λ _ ids w, (describe ids, S w);
     Integration_Entity := λ name _ _ w, ((name, None), S w);
     Metadata_Name := λ e, e;
     NewMetricSet := λ _ _ _ w, (tt, S w);
     MarshalMetrics := λ _ _ w, (None, S w);
     fillTopicPartitions := λ g topics _ w, (fill g topics, S w);
     getConsumerOffsets := λ g tp _ w, (offsets g tp, S w);
     getHighWaterMarks := λ tp _ w, (marks tp, S w);
     populateOffsetStructs := LagAssembler.populateOffsetStructs;
     WaitGroup_Wait := λ _ _ tasks w, S (length tasks + w);
     rangeMap := λ V m, map_to_list m;
     rangeMap_perm := λ V m, reflexivity (map_to_list m) |}.

(** Describing a list of identifiers: one descriptor for each that is
    not the empty string. *)
Definition describe_named (ids : list string) : list (GroupDescription unit) * option error :=
  ((λ id, mkGroupDescription id tt) <$> filter (λ id, id ≠ "") ids, None).

(** A regex that matches every identifier starting with the letter g. *)
Definition starts_with_g : Regexp :=
  mkRegexp (String.prefix "g").

(** ** Reading a history *)

Global Instance Level_eq_dec : EqDecision Level.
Proof. solve_decision. Defined.

Section observations.
Context {E : Env}.

(** The tasks started by the go statement, in order. *)
Definition spawned (tr : list (Event E)) : list (string * MemberMap E) :=
  omap (λ ev, match ev with EGo _ _ g m => Some (g, m) | _ => None end) tr.

(** The argument lists of the log calls of one level and format. *)
Definition logged (lvl : Level) (format : string) (tr : list (Event E))
    : list (list LogArg) :=
  omap (λ ev, match ev with
              | ELog l f args => if decide (l = lvl ∧ f = format) then Some args else None
              | _ => None
              end) tr.

(** The records handed to the emission sink. *)
Definition records (tr : list (Event E)) : list partitionOffsets :=
  omap (λ ev, match ev with EMarshalMetrics _ data _ => Some data | _ => None end) tr.

(** The reads of the two readers: [inl] an offset read with its group,
    [inr] a watermark read. *)
Definition reads (tr : list (Event E))
    : list (string * TopicPartitions + TopicPartitions) :=
  omap (λ ev, match ev with
              | EGetConsumerOffsets g tp _ _ => Some (inl (g, tp))
              | EGetHighWaterMarks tp _ _ => Some (inr tp)
              | _ => None
              end) tr.

(** Kinds of events. *)
Definition is_log (ev : Event E) : Prop :=
  match ev with ELog _ _ _ => True | _ => False end.

Definition is_close (ev : Event E) : Prop :=
  match ev with EClientClose _ _ | EAdminClose _ _ => True | _ => False end.

Definition is_fill (ev : Event E) : Prop :=
  match ev with EFillTopicPartitions _ _ _ _ => True | _ => False end.

(** What the collection of groups does, as opposed to setting up and
    tearing down: discovery, starting tasks, reading offsets and
    watermarks, and emitting. *)
Definition is_collection (ev : Event E) : Prop :=
  match ev with
  | EListConsumerGroups _ _ | EDescribeConsumerGroups _ _ _
  | EWgAdd _ | EGo _ _ _ _ | EWgWait
  | EFillTopicPartitions _ _ _ _
  | EGetConsumerOffsets _ _ _ _ | EGetHighWaterMarks _ _ _
  | EEntity _ _ _ _ | ENewMetricSet _ _ _ _ | EMarshalMetrics _ _ _ => True
  | _ => False
  end.

(** The log entry a deferred close writes when closing failed. *)
Definition close_log (format : string) (r : option error) : list (Event E) :=
  match r with
  | Some err => [ELog LDebug format [AString (Error err)]]
  | None => []
  end.
End observations.

(** The (topic, partition) pairs of a [TopicPartitions] value. *)
Definition topic_partitions (tp : TopicPartitions) : list (string * Z) :=
  '(topic, partitions) ← map_to_list tp; (λ p, (topic, p)) <$> partitions.

(** The error of line 123. *)
Definition ConfigurationError : error :=
  errors_New "if consumer_offset is set, either consumer_group_regex or consumer_groups (deprecated) must also be set".

(** The groups of a described list that the regex matches, those it
    does not, and the events that start one task per group. *)
Definition matching {M} (regex : Regexp) (groups : list (GroupDescription M))
    : list (GroupDescription M) :=
  filter (λ g, MatchString regex (GroupId g) = true) groups.

Definition unmatching {M} (regex : Regexp) (groups : list (GroupDescription M))
    : list (GroupDescription M) :=
  filter (λ g, MatchString regex (GroupId g) ≠ true) groups.

Definition tasks {E : Env} (client : Client E) (clusterAdmin : ClusterAdmin E)
    (groups : list (GroupDescription (MemberMap E))) : list (Event E) :=
  g ← groups; [EWgAdd 1; EGo client clusterAdmin (GroupId g) (Members g)].

(** The tasks that these events start. *)
Definition go_tasks {E : Env} (client : Client E) (clusterAdmin : ClusterAdmin E)
    (groups : list (GroupDescription (MemberMap E))) : list (Task E) :=
  (λ g, (client, clusterAdmin, GroupId g, Members g)) <$> groups.

(** What a function body returns: the value of its return statement, or
    nil at line 126 when it runs to its end. *)
Definition exit_of (f : Flow (ReturnSite * option error) unit) : ReturnSite * option error :=
  match f with
  | Return r => r
  | Next _ => (Line126, None)
  end.

(** The history of the regex mode after a successful discovery of
    [groups]: the two aggregated log entries, each written only when its
    list is not empty. *)
Definition selection_logs {E : Env} (regex : Regexp)
    (groups : list (GroupDescription (MemberMap E))) : list (Event E) :=
  match GroupId <$> unmatching regex groups with
  | [] => []
  | unmatched =>
      [ELog LDebug "Skipped collecting consumer offsets for unmatched consumer groups %v"
         [AStrings unmatched]]
  end ++
  match GroupId <$> drop 200 (matching regex groups) with
  | [] => []
  | skipped =>
      [ELog LDebug "Reached 200 consumer group limit. Skipping consumer groups %v"
         [AStrings skipped]]
  end.

(** The log entry written when a read for [group] failed. *)
Definition read_log {E : Env} (format group : string) (r : option error) : list (Event E) :=
  match r with
  | Some err => [ELog LInfo format [AString group; AError err]]
  | None => []
  end.

(** Events of [setMetrics] and of the check of its result: calls of the
    SDK and the two error entries. *)
Definition is_emission {E : Env} (ev : Event E) : Prop :=
  match ev with
  | EEntity _ _ _ _ | ENewMetricSet _ _ _ _ | EMarshalMetrics _ _ _ => True
  | ELog lvl format _ =>
      lvl = LError
      ∧ (format = "Error Marshaling offset metrics for consumer group '%s': %s"
         ∨ format = "Error setting metrics for consumer group '%s': %s")
  | _ => False
  end.

(** Both handles were created: from the world [w], [CreateClient] gave
    [c] and then [CreateClusterAdmin] gave [a], leaving the world [w2]
    in which line 50 chooses the mode. *)
Definition reaches_selection (E : Env) (w : World E) (c : Client E)
    (a : ClusterAdmin E) (w2 : World E) : Prop :=
  ∃ w1, CreateClient E w = ((c, None), w1) ∧ CreateClusterAdmin E w1 = ((a, None), w2).

(** The history of the collection of one configured group [entry] in
    the static mode, lines 101-120.  The watermarks are read in the
    world that the read of the offsets left. *)
Definition group_block {E : Env} (c : Client E) (entry : string * TopicPartitions)
    (blk : list (Event E)) : Prop :=
  ∃ tp rest,
    blk = EFillTopicPartitions entry.1 entry.2 c tp :: rest ∧
    if decide (size tp = 0) then
      rest = [ELog LError "No topics specified for consumer group '%s'" [AString entry.1]]
    else
      ∃ o e1 h e2 mtr,
        rest = EGetConsumerOffsets entry.1 tp c (o, e1)
               :: read_log "Failed to collect consumerOffsets for group %s: %v" entry.1 e1
               ++ EGetHighWaterMarks tp c (h, e2)
               :: read_log "Failed to collect highWaterMarks for group %s: %v" entry.1 e2
               ++ mtr
        ∧ (∃ w1 w2 w3,
             getConsumerOffsets E entry.1 tp c w1 = ((o, e1), w2)
             ∧ getHighWaterMarks E tp c w2 = ((h, e2), w3))
        ∧ Forall is_emission mtr
        ∧ (records mtr = populateOffsetStructs E o h ∨ records mtr = []).

(** The history of the two deferred closures, which run in the reverse
    order of their defer statements. *)
Definition closing {E : Env} (a : ClusterAdmin E) (ra : option error)
    (c : Client E) (rc : option error) : list (Event E) :=
  EAdminClose a ra :: close_log "Error closing clusterAdmin connection: %s" ra
  ++ EClientClose c rc :: close_log "Error closing client connection: %s" rc.

(** The identifier lists passed to [DescribeConsumerGroups]. *)
Definition described {E : Env} (tr : list (Event E)) : list (list string) :=
  omap (λ ev, match ev with EDescribeConsumerGroups _ ids _ => Some ids | _ => None end) tr.

(** The history of a run in the static mode: the handles, the
    deprecation warning, the collections of the configured groups one
    after the other ([blocks]), and the closes. *)
Definition static_history {E : Env} (c : Client E) (a : ClusterAdmin E)
    (blocks : list (list (Event E))) (tr : list (Event E)) : Prop :=
  ∃ ra rc,
    tr = [ECreateClient (c, None); ECreateClusterAdmin (a, None);
          ELog LWarn "Argument 'consumer_groups' is deprecated and will be removed in a future version. Use 'consumer_group_regex' instead." []]
         ++ concat blocks ++ closing a ra c rc.

(** The part of a history that is the collection of one configured
    group: it starts with the call of [fillTopicPartitions] for the
    group, which gave [tp], and goes on with [rest], up to the next such
    call. *)
Definition collection_of {E : Env} (c : Client E) (entry : string * TopicPartitions)
    (tp : TopicPartitions) (rest blk : list (Event E)) : Prop :=
  blk = EFillTopicPartitions entry.1 entry.2 c tp :: rest
  ∧ Forall (λ ev, ¬ is_fill ev) rest.

(** The topic-partition sets that [fillTopicPartitions] resolved, with
    their groups. *)
Definition resolved {E : Env} (tr : list (Event E)) : list (string * TopicPartitions) :=
  omap (λ ev, match ev with
              | EFillTopicPartitions g _ _ tp => Some (g, tp)
              | _ => None
              end) tr.

(** The handles that were closed, in order. *)
Definition client_closes {E : Env} (tr : list (Event E)) : list (Client E) :=
  omap (λ ev, match ev with EClientClose c _ => Some c | _ => None end) tr.

Definition admin_closes {E : Env} (tr : list (Event E)) : list (ClusterAdmin E) :=
  omap (λ ev, match ev with EAdminClose a _ => Some a | _ => None end) tr.

(** Calls of the emission sink. *)
Definition is_sink_call {E : Env} (ev : Event E) : Prop :=
  match ev with
  | EEntity _ _ _ _ | ENewMetricSet _ _ _ _ | EMarshalMetrics _ _ _ => True
  | _ => False
  end.

(** The events that the collection of a configured group can cause. *)
Definition is_static_event {E : Env} (ev : Event E) : Prop :=
  match ev with
  | EFillTopicPartitions _ _ _ _ | EGetConsumerOffsets _ _ _ _ | EGetHighWaterMarks _ _ _
  | EEntity _ _ _ _ | ENewMetricSet _ _ _ _ | EMarshalMetrics _ _ _ | ELog _ _ _ => True
  | _ => False
  end.

(** ** Runs of the model

    A cluster with three groups listed and 204 described, of which 203
    match the regex. *)
Definition discovered : gmap string string :=
  {[ "g1" := "consumer"; "g2" := "consumer"; "h" := "consumer" ]}.

Definition many_groups : list (GroupDescription unit) :=
  mkGroupDescription "other" tt
    :: ((λ i : nat, mkGroupDescription ("g" +:+ pretty i) tt) <$> seq 0 203).

Definition regex_env : Env :=
  scripted None None (discovered, None) (λ _, (many_groups, None))
    (λ _ tp, tp) (λ _ _, (∅, None)) (λ _, (∅, None)).

Definition regex_args : ArgumentList := mkArgs (Some starts_with_g) ∅ "demo".

(** A cluster whose groups cannot be listed. *)
Definition unlisted_env : Env :=
  scripted None None (∅, Some (mkError "broker not available")) describe_named
    (λ _ tp, tp) (λ _ _, (∅, None)) (λ _, (∅, None)).

(** No mode configured; and a zookeeper that gives no client. *)
Definition unconfigured : ArgumentList := mkArgs None ∅ "demo".

Definition quiet_env : Env :=
  scripted None None (∅, None) describe_named
    (λ _ tp, tp) (λ _ _, (∅, None)) (λ _, (∅, None)).

Definition zookeeper_down : Env :=
  scripted (Some (mkError "zookeeper is down")) None (∅, None) describe_named
    (λ _ tp, tp) (λ _ _, (∅, None)) (λ _, (∅, None)).

(** Three configured groups: one that is read, one whose offsets cannot
    be read, and one without topics. *)
Definition static_args : ArgumentList :=
  mkArgs None
    {[ "orders-app" := {[ "orders" := [0; 1]%Z ]};
       "payments" := {[ "orders" := [0%Z] ]};
       "idle" := ∅ ]}
    "demo".

Definition static_offsets (g : string) (tp : TopicPartitions) : Snapshot * option error :=
  if decide (g = "payments") then (∅, Some (mkError "offset fetch failed"))
  else ({[ ("orders", 0%Z) := Some 100%Z; ("orders", 1%Z) := None ]}, None).

Definition static_marks (tp : TopicPartitions) : Snapshot * option error :=
  ({[ ("orders", 0%Z) := Some 150%Z; ("orders", 1%Z) := Some 200%Z ]}, None).

Definition static_env : Env :=
  scripted None None (∅, None) describe_named (λ _ tp, tp) static_offsets static_marks.

(** One configured group with one topic, of which no partition could be
    resolved. *)
Definition no_partitions_args : ArgumentList :=
  mkArgs None {[ "grp" := {[ "T" := [] ]} ]} "demo".

(** ** Further readings of a history *)

(** The id attribute of line 131. *)
Definition clusterIDAttr (GlobalArgs : ArgumentList) : Attribute :=
  mkAttribute "clusterName" (ClusterName GlobalArgs).

(** The attributes that lines 139-140 give to a metric set of the
    entity [ent]. *)
Definition sample_attributes {E : Env} (ent : Entity E) : list Attribute :=
  [ mkAttribute "displayName" (Metadata_Name E ent);
    mkAttribute "entityName" ("consumerGroup:" +:+ Metadata_Name E ent) ].

(** The entries of lines 143 and 119, written when marshalling a record
    resp. [setMetrics] as a whole failed. *)
Definition marshal_log {E : Env} (group : string) (r : option error) : list (Event E) :=
  match r with
  | Some err =>
      [ELog LError "Error Marshaling offset metrics for consumer group '%s': %s"
         [AString group; AString (Error err)]]
  | None => []
  end.

Definition metrics_log {E : Env} (group : string) (r : option error) : list (Event E) :=
  match r with
  | Some err =>
      [ELog LError "Error setting metrics for consumer group '%s': %s"
         [AString group; AString (Error err)]]
  | None => []
  end.

(** The history of one turn of the loop of lines 137-146, for the
    record [data]. *)
Definition record_block {E : Env} (ent : Entity E) (group : string)
    (data : partitionOffsets) (blk : list (Event E)) : Prop :=
  ∃ ms r,
    blk = ENewMetricSet ent "KafkaOffsetSample" (sample_attributes ent) ms
          :: EMarshalMetrics ms data r :: marshal_log group r.

(** The metric sets that were created, and the errors of the
    marshalling calls that failed, in order. *)
Definition metric_sets {E : Env} (tr : list (Event E))
    : list (Entity E * string * list Attribute) :=
  omap (λ ev, match ev with
              | ENewMetricSet e name attrs _ => Some (e, name, attrs)
              | _ => None
              end) tr.

Definition marshal_failures {E : Env} (tr : list (Event E)) : list error :=
  omap (λ ev, match ev with EMarshalMetrics _ _ (Some err) => Some err | _ => None end) tr.

(** The entities that were asked for, with the answers. *)
Definition entities {E : Env} (tr : list (Event E))
    : list (string * string * Attribute * (Entity E * option error)) :=
  omap (λ ev, match ev with
              | EEntity name ns id r => Some (name, ns, id, r)
              | _ => None
              end) tr.

(** What a history does with the wait group and with goroutines. *)
Inductive WgOp : Type :=
  | WgAdd (delta : Z)
  | WgGo
  | WgWait.

(** The tasks started by the go statements, with the handles they were
    given, in order. *)
Definition go_statements {E : Env} (tr : list (Event E)) : list (Task E) :=
  omap (λ ev, match ev with EGo c a g m => Some (c, a, g, m) | _ => None end) tr.

Definition wait_group {E : Env} (tr : list (Event E)) : list WgOp :=
  omap (λ ev, match ev with
              | EWgAdd delta => Some (WgAdd delta)
              | EGo _ _ _ _ => Some WgGo
              | EWgWait => Some WgWait
              | _ => None
              end) tr.

(** Events that only the regex mode causes, and events that only the
    static mode causes. *)
Definition is_regex_only {E : Env} (ev : Event E) : Prop :=
  match ev with
  | EListConsumerGroups _ _ | EDescribeConsumerGroups _ _ _
  | EWgAdd _ | EGo _ _ _ _ | EWgWait => True
  | _ => False
  end.

Definition is_static_only {E : Env} (ev : Event E) : Prop :=
  match ev with
  | EFillTopicPartitions _ _ _ _ | EGetConsumerOffsets _ _ _ _ | EGetHighWaterMarks _ _ _
  | EEntity _ _ _ _ | ENewMetricSet _ _ _ _ | EMarshalMetrics _ _ _ => True
  | _ => False
  end.

(** The collection of one configured group, lines 101-120, with the
    call of [setMetrics] it ends in: [smtr] is the history of that call
    and [r] its result. *)
Definition group_run {E : Env} (GlobalArgs : ArgumentList) (c : Client E)
    (entry : string * TopicPartitions) (blk : list (Event E)) : Prop :=
  ∃ tp,
    (size tp = 0
     ∧ blk = [EFillTopicPartitions entry.1 entry.2 c tp;
              ELog LError "No topics specified for consumer group '%s'" [AString entry.1]])
    ∨ (size tp ≠ 0
       ∧ ∃ o e1 h e2 w r w' smtr,
           setMetrics E GlobalArgs entry.1 (populateOffsetStructs E o h) w = (r, w', smtr)
           ∧ blk = EFillTopicPartitions entry.1 entry.2 c tp
                   :: EGetConsumerOffsets entry.1 tp c (o, e1)
                   :: read_log "Failed to collect consumerOffsets for group %s: %v" entry.1 e1
                   ++ EGetHighWaterMarks tp c (h, e2)
                   :: read_log "Failed to collect highWaterMarks for group %s: %v" entry.1 e2
                   ++ smtr ++ metrics_log entry.1 r).

(** A scripted environment whose SDK and whose closes can fail: the
    entity of a group, the marshalling of a record and the two closes
    answer as the script says. *)
Definition scripted_sdk
    (entityErr : string → option error)
    (marshalErr : partitionOffsets → option error)
    (clientCloseErr adminCloseErr : option error)
    (offsets : string → TopicPartitions → Snapshot * option error)
    (marks : TopicPartitions → Snapshot * option error) : Env :=
  {| World := nat;
     Client := unit;
     ClusterAdmin := unit;
     MemberMap := unit;
     Entity := string;
     MetricSet := nat;
     CreateClient := λ w, ((tt, None), S w);
     CreateClusterAdmin := λ w, ((tt, None), S w);
     Client_Close := λ _ w, (clientCloseErr, S w);
     ClusterAdmin_Close := λ _ w, (adminCloseErr, S w);
     ListConsumerGroups := λ _ w, ((∅, None), S w);
     DescribeConsumerGroups := λ _ ids w, (([], None), S w);
     Integration_Entity := λ name _ _ w, ((name, entityErr name), S w);
     Metadata_Name := λ e, e;
     NewMetricSet := λ _ _ _ w, (w, S w);
     MarshalMetrics := λ _ data w, (marshalErr data, S w);
     fillTopicPartitions := λ g topics _ w, (topics, S w);
     getConsumerOffsets := λ g tp _ w, (offsets g tp, S w);
     getHighWaterMarks := λ tp _ w, (marks tp, S w);
     populateOffsetStructs := LagAssembler.populateOffsetStructs;
     WaitGroup_Wait := λ _ _ tasks w, S (length tasks + w);
     rangeMap := λ V m, map_to_list m;
     rangeMap_perm := λ V m, reflexivity (map_to_list m) |}.

(** An SDK that has no entity for the group payments and cannot marshal
    a record of partition 1; closing the client fails. *)
Definition flaky_env : Env :=
  scripted_sdk
    (λ g, if decide (g = "payments") then Some (mkError "entity name rejected") else None)
    (λ data, if decide (Partition data = "1") then Some (mkError "unsupported type") else None)
    (Some (mkError "connection reset")) None
    (λ _ _, ({[ ("orders", 0%Z) := Some 100%Z; ("orders", 1%Z) := None ]}, None))
    static_marks.

(** A zookeeper that gives a client and no cluster admin. *)
Definition admin_down : Env :=
  scripted None (Some (mkError "no brokers")) (∅, None) describe_named
    (λ _ tp, tp) (λ _ _, (∅, None)) (λ _, (∅, None)).

(** Both modes configured. *)
Definition both_args : ArgumentList :=
  mkArgs (Some starts_with_g) (ConsumerGroups static_args) "demo".

(** The history up to the first close of a handle. *)
Fixpoint until_close {E : Env} (tr : list (Event E)) : list (Event E) :=
  match tr with
  | [] => []
  | EClientClose _ _ :: _ | EAdminClose _ _ :: _ => []
  | ev :: tr' => ev :: until_close tr'
  end.




Global Arguments closing : simpl never.
Global Arguments tasks : simpl never.
Global Arguments go_tasks : simpl never.
Global Arguments selection_logs : simpl never.

(** * Properties *)

(** Checks a property of kinds of events on an explicit list of them. *)
Ltac each_event :=
  repeat first [ apply Forall_nil_2 | apply Forall_cons_2; [simpl; tauto|] ].

(** ** The monad and the loops *)

Section monad_facts.
Context {E : Env}.

(** A loop whose body never returns from the function runs the body
    once per element, and its history is the bodies' histories in
    order. *)
Lemma for_range_blocks {R A S} (body : A → S → M E R S)
    (P : A → list (Event E) → Prop) :
  (∀ x st w, ∃ st' w' t, body x st w = (Next st', w', t) ∧ P x t) →
  ∀ l st w, ∃ st' w' ts,
    for_range body l st w = (Next st', w', concat ts) ∧ Forall2 P l ts.
Proof.
  intros Hbody l. induction l as [|x l IH]; intros st w.
  - exists st, w, []. split; [reflexivity | constructor].
  - destruct (Hbody x st w) as (st1 & w1 & t & Hx & HP).
    destruct (IH st1 w1) as (st2 & w2 & ts & Hl & HPs).
    exists st2, w2, (t :: ts). split; [|by constructor].
    simpl. unfold bind. rewrite Hx, Hl. reflexivity.
Qed.

Lemma Forall2_concat_Forall {A} (P : A → list (Event E) → Prop)
    (Q : Event E → Prop) l ts :
  (∀ x t, P x t → Forall Q t) → Forall2 P l ts → Forall Q (concat ts).
Proof.
  intros HPQ. induction 1 as [|x t l ts HP _ IH]; simpl; [constructor|].
  apply Forall_app. eauto.
Qed.
End monad_facts.

(** ** The selection loop of the regex mode *)

Section selection.
Variable E : Env.
Variables (regex : Regexp) (client : Client E) (clusterAdmin : ClusterAdmin E).

Lemma selectGroup_loop {R} (groups : list (GroupDescription (MemberMap E))) :
  ∀ (st : Selection) (wg : WaitGroup E) (w : World E),
    (0 ≤ numCollected st)%Z →
    let k := Z.to_nat (200 - numCollected st) in
    for_range (selectGroup (R:=R) E regex client clusterAdmin) groups (st, wg) w =
      (Next (mkSelection
               (unmatchedConsumerGroups st ++ (GroupId <$> unmatching regex groups))
               (numCollected st + Z.of_nat (length (matching regex groups)))
               (skippedConsumerGroups st ++ (GroupId <$> drop k (matching regex groups))),
             mkWaitGroup
               (counter wg + Z.of_nat (length (take k (matching regex groups))))
               (started wg
                  ++ go_tasks client clusterAdmin (take k (matching regex groups)))),
       w, tasks client clusterAdmin (take k (matching regex groups))).
Proof.
  induction groups as [|g groups IH]; intros st wg w Hn k.
  - unfold matching, unmatching. rewrite !filter_nil, drop_nil, take_nil.
    destruct st, wg. simpl. rewrite !app_nil_r, !Z.add_0_r. reflexivity.
  - simpl. unfold bind, selectGroup at 1. unfold matching, unmatching in *.
    rewrite !filter_cons.
    destruct (MatchString regex (GroupId g)) eqn:Hm.
    + rewrite !(decide_True (P:=true = true)) by done.
      rewrite !(decide_False (P:=true ≠ true)) by (by intros []).
      destruct (decide (numCollected st + 1 > 200)%Z) as [Hgt|Hle].
      * unfold mret, M_ret, ret. rewrite IH by (simpl; lia). simpl.
        replace (Z.to_nat (200 - (numCollected st + 1))) with 0%nat by lia.
        subst k. replace (Z.to_nat (200 - numCollected st)) with 0%nat by lia.
        simpl. rewrite <-app_assoc. simpl.
        do 4 f_equal. f_equal; lia.
      * unfold wg_Add, go_collectOffsetsForConsumerGroup,
          mbind, M_bind, bind, emit, mret, M_ret, ret.
        rewrite IH by (simpl; lia). simpl.
        subst k.
        replace (Z.to_nat (200 - numCollected st))
          with (S (Z.to_nat (200 - (numCollected st + 1)))) by lia.
        unfold go_tasks. simpl. rewrite <-app_assoc. simpl.
        do 3 f_equal. f_equal; f_equal; lia.
    + rewrite !(decide_False (P:=false = true)) by done.
      rewrite !(decide_True (P:=false ≠ true)) by done.
      unfold mret, M_ret, ret. rewrite IH by (simpl; lia). simpl.
      rewrite <-app_assoc. reflexivity.
Qed.
End selection.

(** ** The shape of every history of [Collect] *)

Section Collect_facts.
Variable E : Env.
Variable GlobalArgs : ArgumentList.

Lemma closeClient_run c w :
  ∃ r w', closeClient E c w
          = (Next tt, w', EClientClose c r :: close_log "Error closing client connection: %s" r).
Proof.
  unfold closeClient, mbind, M_bind, bind, call, log, emit, mret, M_ret, ret.
  destruct (Client_Close E c w) as [r w'].
  exists r, w'. destruct r; reflexivity.
Qed.

Lemma closeClusterAdmin_run a w :
  ∃ r w', closeClusterAdmin E a w
          = (Next tt, w', EAdminClose a r :: close_log "Error closing clusterAdmin connection: %s" r).
Proof.
  unfold closeClusterAdmin, mbind, M_bind, bind, call, log, emit, mret, M_ret, ret.
  destruct (ClusterAdmin_Close E a w) as [r w'].
  exists r, w'. destruct r; reflexivity.
Qed.

Lemma Collect_unfold w :
  Collect E GlobalArgs w =
  match CreateClient E w with
  | ((c, Some e), w1) => ((Line31, Some e), w1, [ECreateClient (c, Some e)])
  | ((c, None), w1) =>
      match CreateClusterAdmin E w1 with
      | ((a, Some e), w2) =>
          match closeClient E c w2 with
          | (_, w3, t3) =>
              ((Line41, Some e), w3,
               ECreateClient (c, None) :: ECreateClusterAdmin (a, Some e) :: t3)
          end
      | ((a, None), w2) =>
          match collectSelected E GlobalArgs c a None w2 with
          | (f, w3, t3) =>
              match closeClusterAdmin E a w3 with
              | (_, w4, t4) =>
                  match closeClient E c w4 with
                  | (_, w5, t5) =>
                      (exit_of f, w5,
                       ECreateClient (c, None) :: ECreateClusterAdmin (a, None)
                         :: t3 ++ t4 ++ t5)
                  end
              end
          end
      end
  end.
Proof.
  unfold Collect, function, defer, mbind, M_bind, bind, call, return_, mret, M_ret, ret.
  destruct (CreateClient E w) as [[c [e|]] w1]; [reflexivity|].
  destruct (CreateClusterAdmin E w1) as [[a [e|]] w2].
  - destruct (closeClient E c w2) as [[? w3] t3]. reflexivity.
  - destruct (collectSelected E GlobalArgs c a None w2) as [[[r|[]] w3] t3];
      destruct (closeClusterAdmin E a w3) as [[? w4] t4];
      destruct (closeClient E c w4) as [[? w5] t5]; simpl;
      rewrite ?app_nil_r, <-?app_assoc; reflexivity.
Qed.

(** [setMetrics] hands every record it is given to the sink, in order,
    unless the entity cannot be had, and then none. *)
Lemma setMetrics_run g data w :
  ∃ r w' tr,
    setMetrics E GlobalArgs g data w = (r, w', tr)
    ∧ Forall is_emission tr
    ∧ (records tr = data ∨ records tr = []).
Proof.
  unfold setMetrics, function, mbind, M_bind, bind, call, return_.
  destruct (Integration_Entity E g "ka-consumerGroup" _ w) as [[ent [e|]] w1].
  { eexists _, _, _. split; [reflexivity|]. split; [|by right].
    repeat constructor. }
  set (body := λ (offsetData : partitionOffsets) (_ : unit), _).
  destruct (for_range_blocks (R:=option error) body
              (λ d t, records t = [d] ∧ Forall is_emission t))
    with (l := data) (st := tt) (w := w1) as (st' & w' & ts & Hrun & Hts).
  { intros d [] w0. subst body. cbv beta.
    unfold mbind, M_bind, bind, call, log, emit, mret, M_ret, ret.
    destruct (NewMetricSet E ent _ _ w0) as [ms w2].
    destruct (MarshalMetrics E ms d w2) as [[e|] w3];
      eexists _, _, _; (split; [reflexivity|]); split; [done| |done|];
      repeat constructor; simpl; auto. }
  rewrite Hrun. unfold mret, M_ret, ret. eexists _, _, _. split; [reflexivity|].
  rewrite app_nil_r. split.
  - constructor; [exact I|].
    eapply Forall2_concat_Forall; [|exact Hts]. intros x t [_ H]. exact H.
  - left. simpl. clear Hrun. induction Hts as [|d t l ts [Hd _] _ IH]; [done|].
    simpl. unfold records in *. rewrite omap_app, Hd, IH. reflexivity.
Qed.

(** The body of the static loop never leaves the function, whatever
    the reads answer. *)
Lemma collectConfiguredGroup_run {R} c entry st w :
  ∃ st' w' t,
    collectConfiguredGroup (R:=R) E GlobalArgs c entry st w = (Next st', w', t)
    ∧ group_block c entry t.
Proof.
  unfold collectConfiguredGroup, group_block.
  unfold mbind, M_bind, bind, call, log, emit, invoke, mret, M_ret, ret.
  destruct (fillTopicPartitions E entry.1 entry.2 c w) as [tp w1].
  destruct (decide (size tp = 0)) as [Hz|Hnz].
  { eexists _, _, _. split; [reflexivity|]. eexists tp, _.
    split; [reflexivity|]. rewrite decide_True by done. reflexivity. }
  destruct (getConsumerOffsets E entry.1 tp c w1) as [[o e1] w2] eqn:Ho.
  destruct e1 as [err1|]; cbn.
  all: destruct (getHighWaterMarks E tp c w2) as [[h e2] w4] eqn:Hh.
  all: destruct e2 as [err2|]; cbn.
  all: destruct (setMetrics_run entry.1 (populateOffsetStructs E o h) w4)
         as (r & w6 & mtr & Hsm & Hem & Hrec); rewrite Hsm.
  all: destruct r as [err3|]; cbn.
  all: eexists tt, _, _; split; [reflexivity|].
  all: eexists tp, _; split; [reflexivity|]; rewrite decide_False by done.
  all: match goal with
       | Ho : getConsumerOffsets _ _ _ _ _ = (_, ?x1, _),
         Hh : getHighWaterMarks _ _ _ _ = (_, ?x2, _) |- _ =>
           eexists o, x1, h, x2, (mtr ++ _)
       end; (split; [reflexivity|]).
  all: split; [by eauto 10|split].
  all: rewrite ?app_nil_r; try done.
  all: try (apply Forall_app; split; [done|]; apply Forall_singleton; simpl; by auto).
  all: unfold records in *; rewrite ?omap_app; simpl; rewrite ?app_nil_r; exact Hrec.
Qed.

Lemma collectConfigured_run c w :
  ∃ w' blocks,
    collectConfigured E GlobalArgs c w
    = (Next tt, w',
       ELog LWarn "Argument 'consumer_groups' is deprecated and will be removed in a future version. Use 'consumer_group_regex' instead." []
         :: concat blocks)
    ∧ Forall2 (group_block c) (rangeMap E (ConsumerGroups GlobalArgs)) blocks.
Proof.
  unfold collectConfigured, mbind, M_bind, bind, log, emit.
  destruct (for_range_blocks (R:=ReturnSite * option error)
              (collectConfiguredGroup E GlobalArgs c) (group_block c))
    with (l := rangeMap E (ConsumerGroups GlobalArgs)) (st := tt) (w := w)
    as ([] & w' & blocks & -> & Hblocks).
  { intros entry st w0. apply collectConfiguredGroup_run. }
  exists w', blocks. split; [reflexivity | exact Hblocks].
Qed.

Lemma collectMatching_run regex c a w :
  collectMatching E GlobalArgs regex c a None w =
  match ListConsumerGroups E a w with
  | ((m, Some e), w1) =>
      (Return (Line57, Some (fmt_Errorf "failed to get list of consumer groups: " e)),
       w1, [EListConsumerGroups a (m, Some e)])
  | ((m, None), w1) =>
      match DescribeConsumerGroups E a (consumerGroupList E m) w1 with
      | ((groups, Some e), w2) =>
          (Return (Line66, Some (fmt_Errorf "failed to get consumer group descriptions: " e)),
           w2,
           [EListConsumerGroups a (m, None);
            EDescribeConsumerGroups a (consumerGroupList E m) (groups, Some e)])
      | ((groups, None), w2) =>
          (Next tt,
           WaitGroup_Wait E GlobalArgs
             (Z.of_nat (length (take 200 (matching regex groups))))
             (go_tasks c a (take 200 (matching regex groups))) w2,
           EListConsumerGroups a (m, None)
             :: EDescribeConsumerGroups a (consumerGroupList E m) (groups, None)
             :: tasks c a (take 200 (matching regex groups))
             ++ selection_logs regex groups ++ [EWgWait])
      end
  end.
Proof.
  unfold collectMatching, mbind, M_bind, bind, call, return_.
  destruct (ListConsumerGroups E a w) as [[m [e|]] w1]; [reflexivity|].
  destruct (DescribeConsumerGroups E a _ w1) as [[groups [e|]] w2]; [reflexivity|].
  rewrite selectGroup_loop by (simpl; lia). cbn [numCollected unmatchedConsumerGroups
    skippedConsumerGroups counter started app]. change (Z.to_nat (200 - 0)) with 200%nat.
  rewrite Z.add_0_l.
  unfold selection_logs, wg_Wait, call, log, emit, mret, M_ret, ret.
  cbn [counter started].
  destruct (GroupId <$> unmatching regex groups) as [|u us];
    destruct (GroupId <$> drop 200 (matching regex groups)) as [|s ss];
    simpl; rewrite ?app_nil_r; try reflexivity.
  all: repeat (destruct (decide _) as [?|?]; simpl in *; try lia).
  all: rewrite <-?app_assoc; reflexivity.
Qed.

(** Once both handles exist, [Collect] is the chosen mode followed by
    the two closes, and returns what the mode returns. *)
Lemma Collect_selected w c a w2 :
  reaches_selection E w c a w2 →
  ∃ f w3 t3 ra rc w5,
    collectSelected E GlobalArgs c a None w2 = (f, w3, t3)
    ∧ Collect E GlobalArgs w
      = (exit_of f, w5,
         ECreateClient (c, None) :: ECreateClusterAdmin (a, None)
           :: t3 ++ closing a ra c rc).
Proof.
  intros (w1 & Hc & Ha). rewrite Collect_unfold, Hc, Ha.
  destruct (collectSelected E GlobalArgs c a None w2) as [[f w3] t3].
  destruct (closeClusterAdmin_run a w3) as (ra & w4 & ->).
  destruct (closeClient_run c w4) as (rc & w5 & ->).
  exists f, w3, t3, ra, rc, w5. split; [reflexivity|].
  unfold closing. reflexivity.
Qed.

Lemma consumerGroupList_eq (m : gmap string string) :
  consumerGroupList E m = replicate (size m) "" ++ (rangeMap E m).*1.
Proof.
  unfold consumerGroupList. generalize (replicate (size m) "").
  induction (rangeMap E m) as [|entry l IH]; intros acc; simpl.
  - by rewrite app_nil_r.
  - rewrite IH, <-app_assoc. reflexivity.
Qed.
End Collect_facts.

(** ** The claims *)

(** C10.  The return statement of line 52 is dead code.  The branch is
    there ([collectMatching] returns through it whenever it is entered
    with an error), but [Collect] enters it only with the error of line
    39 that line 40 has already found to be nil, so no run of [Collect],
    in any environment and configuration, returns through line 52. *)
Theorem cluster_admin_error_return_unreachable :
  (∀ E GlobalArgs regex c a e w,
     collectMatching E GlobalArgs regex c a (Some e) w
     = (Return (Line52, Some (fmt_Errorf "failed to create cluster admin from client: " e)),
        w, []))
  ∧ (∀ E GlobalArgs w, (Collect E GlobalArgs w).1.1.1 ≠ Line52).
Proof.
  split; [reflexivity|].
  intros E GlobalArgs w. rewrite Collect_unfold.
  destruct (CreateClient E w) as [[c [e|]] w1]; [done|].
  destruct (CreateClusterAdmin E w1) as [[a [e|]] w2].
  { by destruct (closeClient E c w2) as [[? ?] ?]. }
  assert ((exit_of (collectSelected E GlobalArgs c a None w2).1.1).1 ≠ Line52) as Hsite.
  { unfold collectSelected.
    destruct (ConsumerGroupRegex GlobalArgs) as [regex|].
    - rewrite collectMatching_run.
      destruct (ListConsumerGroups E a w2) as [[m [e|]] w3]; [done|].
      by destruct (DescribeConsumerGroups E a _ w3) as [[groups [e|]] w4].
    - destruct (decide (size (ConsumerGroups GlobalArgs) ≠ 0)); [|done].
      by destruct (collectConfigured_run E GlobalArgs c w2) as (w' & blocks & -> & _). }
  destruct (collectSelected E GlobalArgs c a None w2) as [[f w3] t3].
  destruct (closeClusterAdmin E a w3) as [[? w4] t4].
  destruct (closeClient E c w4) as [[? w5] t5]. exact Hsite.
Qed.

(** ** What the parts of a history contribute to its readings *)

Section readings.
Context {E : Env}.
Implicit Types (c : Client E) (a : ClusterAdmin E) (tr : list (Event E)).

Lemma spawned_tasks c a groups :
  spawned (tasks c a groups) = (λ g, (GroupId g, Members g)) <$> groups.
Proof.
  unfold tasks, spawned. induction groups as [|g groups IH]; [done|].
  cbn. f_equal. exact IH.
Qed.

Lemma tasks_only_spawn c a groups :
  Forall (λ ev, match ev with EWgAdd _ | EGo _ _ _ _ => True | _ => False end)
         (tasks c a groups).
Proof.
  unfold tasks. induction groups as [|g groups IH]; [constructor|].
  cbn. by repeat constructor.
Qed.

Lemma selection_logs_only_log regex groups :
  Forall is_log (selection_logs (E:=E) regex groups).
Proof.
  unfold selection_logs.
  destruct (GroupId <$> unmatching regex groups);
    destruct (GroupId <$> drop 200 (matching regex groups)); by repeat constructor.
Qed.

Lemma closing_only_close a ra c rc :
  Forall (λ ev, is_close ev ∨ is_log ev) (closing a ra c rc).
Proof.
  unfold closing.
  destruct ra, rc; repeat first [apply Forall_nil_2 | apply Forall_cons_2; [simpl; auto|]].
Qed.

Lemma spawned_app tr1 tr2 : spawned (tr1 ++ tr2) = spawned tr1 ++ spawned tr2.
Proof. apply omap_app. Qed.

Lemma logged_app lvl format tr1 tr2 :
  logged lvl format (tr1 ++ tr2) = logged lvl format tr1 ++ logged lvl format tr2.
Proof. apply omap_app. Qed.

Lemma records_app tr1 tr2 : records (tr1 ++ tr2) = records tr1 ++ records tr2.
Proof. apply omap_app. Qed.

Lemma reads_app tr1 tr2 : reads (tr1 ++ tr2) = reads tr1 ++ reads tr2.
Proof. apply omap_app. Qed.

(** A reading that ignores every event of a history is empty. *)
Lemma omap_ignored {B} (f : Event E → option B) (P : Event E → Prop) tr :
  Forall P tr → (∀ ev, P ev → f ev = None) → omap f tr = [].
Proof.
  intros Htr Hf. induction Htr as [|ev tr Hev _ IH]; [done|].
  cbn. rewrite (Hf ev Hev). exact IH.
Qed.
End readings.

(** C9.  In the regex mode, when [ListConsumerGroups] gives a map [m]
    of n groups, [DescribeConsumerGroups] is called once, with a list of
    2n identifiers: n empty strings, which [make] put there, followed by
    the n keys of [m] (in the order the range statement visited them). *)
Theorem describe_gets_padded_identifier_list
    (E : Env) (GlobalArgs : ArgumentList) (w : World E) regex c a w2 m w3 :
  ConsumerGroupRegex GlobalArgs = Some regex →
  reaches_selection E w c a w2 →
  ListConsumerGroups E a w2 = ((m, None), w3) →
  let ids := consumerGroupList E m in
  described (Collect E GlobalArgs w).2 = [ids]
  ∧ length ids = 2 * size m
  ∧ take (size m) ids = replicate (size m) ""
  ∧ drop (size m) ids ≡ₚ (map_to_list m).*1.
Proof.
  intros Hregex Hsel Hlist ids.
  assert (length (replicate (size m) "" : list string) = size m) as Hlen
    by apply length_replicate.
  split; [|subst ids; rewrite consumerGroupList_eq; split; [|split]].
  - destruct (Collect_selected E GlobalArgs w c a w2 Hsel)
      as (f & w3' & t3 & ra & rc & w5 & Hmode & ->).
    unfold collectSelected in Hmode. rewrite Hregex, collectMatching_run, Hlist in Hmode.
    fold ids in Hmode.
    assert (described (closing a ra c rc) = []) as Hclosing.
    { eapply omap_ignored; [apply closing_only_close|].
      by intros [] [|]. }
    destruct (DescribeConsumerGroups E a ids w3) as [[groups [e|]] w4];
      injection Hmode as <- <- <-; unfold described in *; cbn; rewrite ?omap_app.
    + rewrite Hclosing. reflexivity.
    + rewrite Hclosing.
      rewrite (omap_ignored _ _ _ (tasks_only_spawn c a _)) by (by intros []).
      rewrite (omap_ignored _ _ _ (selection_logs_only_log regex groups)) by (by intros []).
      reflexivity.
  - rewrite length_app, Hlen, length_fmap, (rangeMap_perm E), length_map_to_list. lia.
  - rewrite take_app_length'; done.
  - rewrite drop_app_length' by done. by rewrite (rangeMap_perm E).
Qed.

Section regex_mode.
Context {E : Env}.

Lemma logged_closing lvl format (a : ClusterAdmin E) ra (c : Client E) rc :
  format ≠ "Error closing clusterAdmin connection: %s" →
  format ≠ "Error closing client connection: %s" →
  logged lvl format (closing a ra c rc) = [].
Proof.
  intros H1 H2. unfold closing, logged.
  destruct ra, rc; cbn; repeat case_decide; try reflexivity; exfalso; intuition congruence.
Qed.

Lemma logged_tasks lvl format (c : Client E) (a : ClusterAdmin E) groups :
  logged lvl format (tasks c a groups) = [].
Proof.
  eapply omap_ignored; [apply tasks_only_spawn|]. by intros [].
Qed.
End regex_mode.

(** C1.  In the regex mode, after a successful discovery of [groups]:
    a task is started for each of the first 200 groups that the regex
    matches, in order, and for no other; if more match, the remaining
    ones are logged in one entry; the groups that do not match are
    logged in one entry, if there are any.  A matched group at position
    i among the matched ones is collected when i < 200 and skipped
    otherwise, never both and never neither. *)
Theorem regex_mode_collects_first_200_matches
    (E : Env) (GlobalArgs : ArgumentList) (w : World E) regex c a w2 m w3 groups w4 :
  ConsumerGroupRegex GlobalArgs = Some regex →
  reaches_selection E w c a w2 →
  ListConsumerGroups E a w2 = ((m, None), w3) →
  DescribeConsumerGroups E a (consumerGroupList E m) w3 = ((groups, None), w4) →
  let tr := (Collect E GlobalArgs w).2 in
  let matched := matching regex groups in
  let collected := take 200 matched in
  let skipped := drop 200 matched in
  spawned tr = (λ g, (GroupId g, Members g)) <$> collected
  ∧ length (spawned tr) ≤ 200
  ∧ logged LDebug "Reached 200 consumer group limit. Skipping consumer groups %v" tr
    = match GroupId <$> skipped with
      | [] => []
      | ids => [[AStrings ids]]
      end
  ∧ logged LDebug "Skipped collecting consumer offsets for unmatched consumer groups %v" tr
    = match GroupId <$> unmatching regex groups with
      | [] => []
      | ids => [[AStrings ids]]
      end
  ∧ ∀ i g, matched !! i = Some g →
      (i < 200 ∧ collected !! i = Some g)
      ∨ (200 ≤ i ∧ skipped !! (i - 200) = Some g).
Proof.
  intros Hregex Hsel Hlist Hdesc tr matched collected skipped.
  destruct (Collect_selected E GlobalArgs w c a w2 Hsel)
    as (f & w3' & t3 & ra & rc & w5 & Hmode & Hrun).
  unfold collectSelected in Hmode.
  rewrite Hregex, collectMatching_run, Hlist, Hdesc in Hmode.
  injection Hmode as <- <- <-.
  assert (tr = [ECreateClient (c, None); ECreateClusterAdmin (a, None);
                EListConsumerGroups a (m, None);
                EDescribeConsumerGroups a (consumerGroupList E m) (groups, None)]
               ++ tasks c a collected ++ selection_logs regex groups
               ++ [EWgWait] ++ closing a ra c rc) as ->.
  { subst tr. rewrite Hrun. cbn. rewrite <-!app_assoc. reflexivity. }
  clear Hrun.
  assert (∀ lvl format,
            format ≠ "Error closing clusterAdmin connection: %s" →
            format ≠ "Error closing client connection: %s" →
            logged lvl format
              ([ECreateClient (c, None); ECreateClusterAdmin (a, None);
                EListConsumerGroups a (m, None);
                EDescribeConsumerGroups a (consumerGroupList E m) (groups, None)]
               ++ tasks c a collected ++ selection_logs regex groups
               ++ [EWgWait] ++ closing a ra c rc)
            = logged lvl format (selection_logs regex groups)) as Hlogged.
  { intros lvl format H1 H2.
    rewrite !logged_app, logged_tasks, logged_closing by done.
    cbn. by rewrite app_nil_r. }
  rewrite !Hlogged by done. clear Hlogged.
  rewrite !spawned_app, spawned_tasks.
  assert (spawned (selection_logs (E:=E) regex groups) = []) as ->
    by (eapply omap_ignored; [apply selection_logs_only_log | by intros []]).
  assert (spawned (closing a ra c rc) = []) as ->
    by (eapply omap_ignored; [apply closing_only_close | by intros [] [|]]).
  cbn. rewrite app_nil_r.
  split; [reflexivity|]. split.
  { rewrite length_fmap. subst collected. rewrite length_take. lia. }
  split; [|split].
  - unfold selection_logs, logged. rewrite omap_app.
    fold matched. fold skipped.
    destruct (GroupId <$> unmatching regex groups);
      destruct (GroupId <$> skipped); reflexivity.
  - unfold selection_logs, logged. rewrite omap_app.
    fold matched. fold skipped.
    destruct (GroupId <$> unmatching regex groups);
      destruct (GroupId <$> skipped); reflexivity.
  - intros i g Hi. destruct (decide (i < 200)) as [Hlt|Hge].
    + left. split; [done|]. subst collected. by rewrite lookup_take_lt.
    + right. split; [lia|]. subst skipped. rewrite lookup_drop.
      by replace (200 + (i - 200)) with i by lia.
Qed.

Section static_mode.
Context {E : Env}.

Lemma emission_static (ev : Event E) : is_emission ev → is_static_event ev.
Proof. by destruct ev. Qed.

Lemma group_block_events (c : Client E) entry blk :
  group_block c entry blk → Forall is_static_event blk.
Proof.
  intros (tp & rest & -> & Hrest). constructor; [exact I|].
  destruct (decide (size tp = 0)).
  - subst rest. by repeat constructor.
  - destruct Hrest as (o & e1 & h & e2 & mtr & -> & _ & Hem & _).
    constructor; [exact I|]. apply Forall_app. split.
    { destruct e1; by repeat constructor. }
    constructor; [exact I|]. apply Forall_app. split.
    { destruct e2; by repeat constructor. }
    eapply Forall_impl; [exact Hem | apply emission_static].
Qed.

Lemma blocks_events (c : Client E) entries blocks :
  Forall2 (group_block c) entries blocks → Forall is_static_event (concat blocks).
Proof.
  apply Forall2_concat_Forall. apply group_block_events.
Qed.
End static_mode.

(** C5.  In the regex mode a failure of the discovery, of
    [ListConsumerGroups] or (when that succeeded) of
    [DescribeConsumerGroups], makes [Collect] return an error that wraps
    the failure.  The whole history is then the creation of the handles,
    the discovery calls and the two closes: no task is started and the
    sink is never called, so no record is emitted. *)
Theorem discovery_failure_aborts_the_run
    (E : Env) (GlobalArgs : ArgumentList) (w : World E)
    regex c a w2 m lerr w3 groups derr w4 :
  ConsumerGroupRegex GlobalArgs = Some regex →
  reaches_selection E w c a w2 →
  ListConsumerGroups E a w2 = ((m, lerr), w3) →
  DescribeConsumerGroups E a (consumerGroupList E m) w3 = ((groups, derr), w4) →
  is_Some lerr ∨ is_Some derr →
  let result := (Collect E GlobalArgs w).1.1 in
  let tr := (Collect E GlobalArgs w).2 in
  result = match lerr, derr with
           | Some e, _ =>
               (Line57, Some (fmt_Errorf "failed to get list of consumer groups: " e))
           | None, Some e =>
               (Line66, Some (fmt_Errorf "failed to get consumer group descriptions: " e))
           | None, None => (Line126, None)
           end
  ∧ is_Some result.2
  ∧ (∃ ra rc,
       tr = [ECreateClient (c, None); ECreateClusterAdmin (a, None)]
            ++ match lerr with
               | Some _ => [EListConsumerGroups a (m, lerr)]
               | None => [EListConsumerGroups a (m, None);
                          EDescribeConsumerGroups a (consumerGroupList E m) (groups, derr)]
               end
            ++ closing a ra c rc)
  ∧ spawned tr = []
  ∧ records tr = []
  ∧ Forall (λ ev, ¬ is_sink_call ev) tr.
Proof.
  intros Hregex Hsel Hlist Hdesc Herr result tr.
  destruct (Collect_selected E GlobalArgs w c a w2 Hsel)
    as (f & w3' & t3 & ra & rc & w5 & Hmode & Hrun).
  unfold collectSelected in Hmode. rewrite Hregex, collectMatching_run, Hlist in Hmode.
  subst result tr. rewrite Hrun. clear Hrun. cbn [fst snd].
  assert (spawned (closing a ra c rc) = []) as Hs
    by (eapply omap_ignored; [apply closing_only_close | by intros [] [|]]).
  assert (records (closing a ra c rc) = []) as Hr
    by (eapply omap_ignored; [apply closing_only_close | by intros [] [|]]).
  assert (Forall (λ ev, ¬ is_sink_call ev) (closing a ra c rc)) as Hk.
  { eapply Forall_impl; [apply closing_only_close|]. intros [] [|]; simpl in *; tauto. }
  destruct lerr as [e|].
  - injection Hmode as <- <- <-.
    split; [done|]. split; [done|]. split; [by exists ra, rc|].
    rewrite 2!app_comm_cons, spawned_app, records_app, Hs, Hr.
    repeat split; try done.
    apply Forall_app. split; [|exact Hk]. repeat (constructor; [by auto|]). constructor.
  - rewrite Hdesc in Hmode. destruct derr as [e|]; [|by destruct Herr as [[]|[]]].
    injection Hmode as <- <- <-.
    split; [done|]. split; [done|]. split; [by exists ra, rc|].
    rewrite 2!app_comm_cons, spawned_app, records_app, Hs, Hr.
    repeat split; try done.
    apply Forall_app. split; [|exact Hk]. repeat (constructor; [by auto|]). constructor.
Qed.

(** C4, as the code has it.  With neither the regex nor a non-empty
    mapping configured, [Collect] returns an error and collects nothing:
    its history holds no discovery call, no task, no read and no call
    of the sink.  The error is the configuration error of line 123
    whenever both handles could be created; when creating a handle
    fails, that failure is what lines 31 and 41 return. *)
Theorem unconfigured_run_fails_and_collects_nothing
    (E : Env) (GlobalArgs : ArgumentList) (w : World E) :
  ConsumerGroupRegex GlobalArgs = None →
  size (ConsumerGroups GlobalArgs) = 0 →
  let result := (Collect E GlobalArgs w).1.1 in
  let tr := (Collect E GlobalArgs w).2 in
  is_Some result.2
  ∧ Forall (λ ev, ¬ is_collection ev) tr
  ∧ (∀ c a w2, reaches_selection E w c a w2 →
       result = (Line123, Some ConfigurationError)).
Proof.
  intros Hregex Hgroups result tr. subst result tr.
  rewrite Collect_unfold.
  destruct (CreateClient E w) as [[c [e|]] w1] eqn:Hc.
  { repeat split; [done|each_event|].
    intros c' a' w2 (w1' & Hc' & _). congruence. }
  destruct (CreateClusterAdmin E w1) as [[a [e|]] w2] eqn:Ha.
  { destruct (closeClient_run E c w2) as (rc & w3 & ->).
    repeat split; [done| |].
    - destruct rc; each_event.
    - intros c' a' w2' (w1' & Hc' & Ha'). congruence. }
  unfold collectSelected. rewrite Hregex.
  rewrite decide_False by (intros H; by apply H). unfold return_.
  destruct (closeClusterAdmin_run E a w2) as (ra & w3 & ->).
  destruct (closeClient_run E c w3) as (rc & w4 & ->).
  split; [done|]. split; [destruct ra, rc; each_event|].
  intros c' a' w2' _. reflexivity.
Qed.

Section closing_facts.
Variable E : Env.
Variable GlobalArgs : ArgumentList.

(** Whatever the mode does, it closes nothing, and if it started a
    task, the last thing it did was to wait for the tasks. *)
Lemma collectSelected_body c a w2 :
  ∃ f w3 t3,
    collectSelected E GlobalArgs c a None w2 = (f, w3, t3)
    ∧ Forall (λ ev, ¬ is_close ev) t3
    ∧ (spawned t3 = [] ∨ ∃ t, t3 = t ++ [EWgWait]).
Proof.
  unfold collectSelected. destruct (ConsumerGroupRegex GlobalArgs) as [regex|].
  - rewrite collectMatching_run.
    destruct (ListConsumerGroups E a w2) as [[m [e|]] w3].
    { eexists _, _, _. split; [reflexivity|]. split; [each_event | by left]. }
    destruct (DescribeConsumerGroups E a _ w3) as [[groups [e|]] w4].
    { eexists _, _, _. split; [reflexivity|]. split; [each_event | by left]. }
    eexists _, _, _. split; [reflexivity|]. split.
    + do 2 (apply Forall_cons_2; [simpl; tauto|]).
      apply Forall_app. split; [|apply Forall_app; split; [|each_event]].
      * eapply Forall_impl; [apply tasks_only_spawn|]. intros []; simpl; tauto.
      * eapply Forall_impl; [apply selection_logs_only_log|]. intros []; simpl; tauto.
    + right. eexists (_ :: _ :: _ ++ _). cbn. rewrite <-app_assoc. reflexivity.
  - destruct (decide (size (ConsumerGroups GlobalArgs) ≠ 0)).
    + destruct (collectConfigured_run E GlobalArgs c w2) as (w3 & blocks & -> & Hblocks).
      apply blocks_events in Hblocks.
      eexists _, _, _. split; [reflexivity|]. split.
      * apply Forall_cons_2; [simpl; tauto|].
        eapply Forall_impl; [exact Hblocks|]. intros []; simpl; tauto.
      * left. change (spawned (concat blocks) = []).
        eapply omap_ignored; [exact Hblocks|]. by intros [].
    + eexists _, _, _. split; [reflexivity|]. split; [constructor | by left].
Qed.

Lemma closes_of_closing (a : ClusterAdmin E) ra (c : Client E) rc :
  client_closes (closing a ra c rc) = [c] ∧ admin_closes (closing a ra c rc) = [a].
Proof. unfold closing. by destruct ra, rc. Qed.

Lemma no_closes (t : list (Event E)) :
  Forall (λ ev, ¬ is_close ev) t → client_closes t = [] ∧ admin_closes t = [].
Proof.
  intros Ht. split; (eapply omap_ignored; [exact Ht|]); intros []; simpl; tauto.
Qed.
End closing_facts.

(** ** The lag assembler of the specification *)

Section assembler.
Import LagAssembler.

Lemma key_is_record offsets hwms key key' :
  key_is key (record offsets hwms key') ↔ key = key'.
Proof.
  unfold key_is, record. cbn. destruct key as [t p], key' as [t' p']. cbn. split.
  - intros [-> Hp]. f_equal. symmetry. by apply (inj pretty).
  - by intros [= -> ->].
Qed.

Lemma filter_key_records offsets hwms key (keys : list (string * Z)) :
  NoDup keys →
  length (filter (key_is key) (record offsets hwms <$> keys))
  = if decide (key ∈ keys) then 1 else 0.
Proof.
  induction 1 as [|k keys Hk Hnd IH]; [done|].
  rewrite fmap_cons, filter_cons.
  destruct (decide (key_is key (record offsets hwms k))) as [Hkey|Hkey];
    rewrite key_is_record in Hkey.
  - subst k. cbn. rewrite IH.
    rewrite decide_False by done. rewrite decide_True by apply list_elem_of_here.
    reflexivity.
  - rewrite IH. destruct (decide (key ∈ keys)) as [Hin|Hin].
    + rewrite decide_True by (by apply list_elem_of_further). reflexivity.
    + rewrite decide_False; [reflexivity|].
      rewrite elem_of_cons. intros [?|?]; congruence.
Qed.

End assembler.

(** C3.  The assembled output holds exactly one record for every
    (topic, partition) key in the union of the domains of the two
    snapshots and none for any other key.  In the record of a key, the
    offset and the watermark are the values the snapshots hold for the
    key, absent where a snapshot has no value; the lag is the watermark
    minus the offset when both are present, whatever its sign, and
    absent otherwise. *)
Theorem assembler_gives_one_record_per_key (offsets hwms : Snapshot) :
  let out := LagAssembler.populateOffsetStructs offsets hwms in
  (∀ key, key ∈ dom offsets ∪ dom hwms →
     length (filter (LagAssembler.key_is key) out) = 1)
  ∧ (∀ key, key ∉ dom offsets ∪ dom hwms →
     filter (LagAssembler.key_is key) out = [])
  ∧ length out = size (dom offsets ∪ dom hwms)
  ∧ (∀ r, r ∈ out →
     ∃ key, key ∈ dom offsets ∪ dom hwms
       ∧ LagAssembler.key_is key r
       ∧ ConsumerOffset r = default None (offsets !! key)
       ∧ HighWaterMark r = default None (hwms !! key)
       ∧ ConsumerLag r
         = match HighWaterMark r, ConsumerOffset r with
           | Some hwm, Some offset => Some (hwm - offset)%Z
           | _, _ => None
           end).
Proof.
  intros out. subst out. unfold LagAssembler.populateOffsetStructs.
  pose proof (NoDup_elements (dom offsets ∪ dom hwms)) as Hnd.
  repeat split.
  - intros key Hkey. rewrite filter_key_records by done.
    rewrite decide_True; [done|]. by apply elem_of_elements.
  - intros key Hkey. apply length_zero_iff_nil. rewrite filter_key_records by done.
    rewrite decide_False; [done|]. by rewrite elem_of_elements.
  - by rewrite length_fmap.
  - intros r. rewrite list_elem_of_fmap. intros (key & -> & Hkey).
    exists key. rewrite elem_of_elements in Hkey.
    split; [done|]. split; [by apply key_is_record|]. done.
Qed.

(** ** The static mode *)

Section static_facts.
Variable E : Env.
Variable GlobalArgs : ArgumentList.

Lemma Collect_static w c a w2 :
  ConsumerGroupRegex GlobalArgs = None →
  size (ConsumerGroups GlobalArgs) ≠ 0 →
  reaches_selection E w c a w2 →
  ∃ blocks,
    (Collect E GlobalArgs w).1.1 = (Line126, None)
    ∧ static_history c a blocks (Collect E GlobalArgs w).2
    ∧ Forall2 (group_block c) (rangeMap E (ConsumerGroups GlobalArgs)) blocks.
Proof.
  intros Hregex Hsize Hsel.
  destruct (Collect_selected E GlobalArgs w c a w2 Hsel)
    as (f & w3 & t3 & ra & rc & w5 & Hmode & ->).
  unfold collectSelected in Hmode. rewrite Hregex, decide_True in Hmode by done.
  destruct (collectConfigured_run E GlobalArgs c w2) as (w3' & blocks & Hrun & Hblocks).
  rewrite Hrun in Hmode. injection Hmode as <- <- <-.
  exists blocks. split; [reflexivity|]. split; [|exact Hblocks].
  exists ra, rc. reflexivity.
Qed.

(** In the collection of a group, everything after the first call is
    something else than the call of [fillTopicPartitions]. *)
Lemma group_block_collection (c : Client E) entry blk :
  group_block c entry blk → ∃ tp rest, collection_of c entry tp rest blk.
Proof.
  intros Hblk. pose proof (group_block_events c entry blk Hblk) as Hev.
  destruct Hblk as (tp & rest & -> & Hrest). exists tp, rest. split; [done|].
  apply Forall_cons in Hev as [_ Hev].
  destruct (decide (size tp = 0)).
  - subst rest. each_event.
  - destruct Hrest as (o & e1 & h & e2 & mtr & -> & _ & Hem & _).
    apply Forall_cons_2; [simpl; tauto|]. apply Forall_app. split.
    { destruct e1; each_event. }
    apply Forall_cons_2; [simpl; tauto|]. apply Forall_app. split.
    { destruct e2; each_event. }
    eapply Forall_impl; [exact Hem|]. intros []; simpl; tauto.
Qed.

Lemma read_log_only_log format g r (ev : Event E) :
  ev ∈ read_log format g r → is_log ev.
Proof.
  destruct r; cbn; [|by intros ?%elem_of_nil].
  by intros ->%list_elem_of_singleton.
Qed.

Lemma reads_emission (mtr : list (Event E)) : Forall is_emission mtr → reads mtr = [].
Proof. intros H. eapply omap_ignored; [exact H|]. by intros []. Qed.

Lemma logged_emission lvl format (mtr : list (Event E)) :
  Forall is_emission mtr →
  lvl ≠ LError
  ∨ (format ≠ "Error Marshaling offset metrics for consumer group '%s': %s"
     ∧ format ≠ "Error setting metrics for consumer group '%s': %s") →
  logged lvl format mtr = [].
Proof.
  intros H Hne. eapply omap_ignored; [exact H|].
  intros []; simpl; try done. intros [-> Hf].
  rewrite decide_False; [done|]. intros [<- ->]. destruct Hne as [?|[? ?]], Hf; done.
Qed.
End static_facts.

(** C2.  In the static mode the history is made of one collection per
    configured group, in the order the range statement visits the
    mapping, and there is no read outside of them.  In the collection of
    a group there is either no read at all (the group has no topics), or
    exactly two: the read of the committed offsets of that group, and
    after it the read of the high water marks of the same topics and
    partitions, made in the world that the read of the offsets left
    when it returned its snapshot. *)
Theorem offsets_are_read_before_watermarks
    (E : Env) (GlobalArgs : ArgumentList) (w : World E) c a w2 :
  ConsumerGroupRegex GlobalArgs = None →
  size (ConsumerGroups GlobalArgs) ≠ 0 →
  reaches_selection E w c a w2 →
  let tr := (Collect E GlobalArgs w).2 in
  ∃ blocks,
    static_history c a blocks tr
    ∧ reads tr = blocks ≫= reads
    ∧ Forall2 (λ entry blk,
         ∃ tp rest,
           collection_of c entry tp rest blk
           ∧ ((size tp = 0 ∧ reads blk = [])
              ∨ ∃ o h w1 w2 w3 mid post,
                  getConsumerOffsets E entry.1 tp c w1 = (o, w2)
                  ∧ getHighWaterMarks E tp c w2 = (h, w3)
                  ∧ rest = EGetConsumerOffsets entry.1 tp c o
                           :: mid ++ EGetHighWaterMarks tp c h :: post
                  ∧ reads blk = [inl (entry.1, tp); inr tp]))
        (rangeMap E (ConsumerGroups GlobalArgs)) blocks.
Proof.
  intros Hregex Hsize Hsel tr.
  destruct (Collect_static E GlobalArgs w c a w2 Hregex Hsize Hsel)
    as (blocks & _ & Hhist & Hblocks).
  exists blocks. split; [exact Hhist|]. split.
  - destruct Hhist as (ra & rc & Htr). fold tr in Htr. rewrite Htr.
    rewrite !reads_app.
    assert (reads (closing a ra c rc) = []) as ->
      by (eapply omap_ignored; [apply closing_only_close | by intros [] [|]]).
    rewrite app_nil_r. change (reads (concat blocks) = blocks ≫= reads). clear.
    induction blocks as [|blk blocks IH]; [done|].
    change (concat (blk :: blocks)) with (blk ++ concat blocks).
    by rewrite reads_app, IH, bind_cons.
  - eapply Forall2_impl; [exact Hblocks|].
    intros entry blk Hblk.
    destruct (group_block_collection E c entry blk Hblk) as (tp & rest & Hcoll).
    exists tp, rest. split; [exact Hcoll|].
    destruct Hcoll as [-> _].
    destruct Hblk as (tp' & rest' & [= <- <-] & Hrest).
    destruct (decide (size tp = 0)) as [Hz|Hnz].
    + left. by subst rest.
    + right.
      destruct Hrest as (o & e1 & h & e2 & mtr & -> & (w1 & w2' & w3 & Ho & Hh) & Hem & _).
      eexists (o, e1), (h, e2), w1, w2', w3, _, _.
      split; [exact Ho|]. split; [exact Hh|]. split; [reflexivity|].
      pose proof (reads_emission E mtr Hem) as Hm. unfold reads in *.
      destruct e1, e2; cbn; rewrite Hm; reflexivity.
Qed.

(** C7, as the code has it.  In the static mode every configured group
    has its collection in the history, and [Collect] returns nil.  The
    collection of a group whose topics resolve to an empty mapping (no
    topic at all: line 102 tests the length of the map) is the call of
    [fillTopicPartitions] followed by one error entry naming the group
    and nothing else, so it hands no record to the sink.  A group whose
    mapping is not empty gets no such entry, whatever the partitions of
    its topics are. *)
Theorem group_without_topics_is_skipped
    (E : Env) (GlobalArgs : ArgumentList) (w : World E) c a w2 :
  ConsumerGroupRegex GlobalArgs = None →
  size (ConsumerGroups GlobalArgs) ≠ 0 →
  reaches_selection E w c a w2 →
  let result := (Collect E GlobalArgs w).1.1 in
  let tr := (Collect E GlobalArgs w).2 in
  result = (Line126, None)
  ∧ rangeMap E (ConsumerGroups GlobalArgs) ≡ₚ map_to_list (ConsumerGroups GlobalArgs)
  ∧ ∃ blocks,
      static_history c a blocks tr
      ∧ Forall2 (λ entry blk,
           ∃ tp rest,
             collection_of c entry tp rest blk
             ∧ if decide (size tp = 0) then
                 rest = [ELog LError "No topics specified for consumer group '%s'"
                           [AString entry.1]]
                 ∧ records blk = []
                 ∧ logged LError "No topics specified for consumer group '%s'" blk
                   = [[AString entry.1]]
               else
                 logged LError "No topics specified for consumer group '%s'" blk = [])
          (rangeMap E (ConsumerGroups GlobalArgs)) blocks.
Proof.
  intros Hregex Hsize Hsel result tr.
  destruct (Collect_static E GlobalArgs w c a w2 Hregex Hsize Hsel)
    as (blocks & Hresult & Hhist & Hblocks).
  split; [exact Hresult|]. split; [apply rangeMap_perm|].
  exists blocks. split; [exact Hhist|].
  eapply Forall2_impl; [exact Hblocks|].
  intros entry blk Hblk.
  destruct (group_block_collection E c entry blk Hblk) as (tp & rest & Hcoll).
  exists tp, rest. split; [exact Hcoll|].
  destruct Hcoll as [-> _].
  destruct Hblk as (tp' & rest' & [= <- <-] & Hrest).
  destruct (decide (size tp = 0)).
  - by subst rest.
  - destruct Hrest as (o & e1 & h & e2 & mtr & -> & _ & Hem & _).
    pose proof (logged_emission E LError "No topics specified for consumer group '%s'"
                  mtr Hem) as Hm.
    unfold logged in *. destruct e1, e2; cbn; rewrite Hm; auto.
Qed.

(** ** Runs *)

(** The example of section 8 of the specification, item 6. *)
Example assembler_example :
  LagAssembler.populateOffsetStructs
    {[ ("T", 0%Z) := Some 100%Z; ("T", 1%Z) := None ]}
    {[ ("T", 0%Z) := Some 150%Z; ("T", 1%Z) := Some 200%Z ]}
  = [ mkPartitionOffsets "T" "0" (Some 100%Z) (Some 150%Z) (Some 50%Z);
      mkPartitionOffsets "T" "1" None (Some 200%Z) None ].
Proof. vm_compute. reflexivity. Qed.

(** A lag that is negative is passed on as it is. *)
Example assembler_negative_lag :
  LagAssembler.populateOffsetStructs {[ ("T", 0%Z) := Some 7%Z ]} {[ ("T", 0%Z) := Some 5%Z ]}
  = [ mkPartitionOffsets "T" "0" (Some 7%Z) (Some 5%Z) (Some (-2)%Z) ].
Proof. vm_compute. reflexivity. Qed.

(** 203 of the 204 described groups match: 200 tasks, three groups
    skipped in one entry, one unmatched. *)
Example regex_run :
  let tr := (Collect regex_env regex_args 0).2 in
  (Collect regex_env regex_args 0).1.1 = (Line126, None)
  ∧ length (spawned tr) = 200
  ∧ logged LDebug "Reached 200 consumer group limit. Skipping consumer groups %v" tr
    = [[AStrings ["g200"; "g201"; "g202"]]]
  ∧ logged LDebug "Skipped collecting consumer offsets for unmatched consumer groups %v" tr
    = [[AStrings ["other"]]]
  ∧ described tr = [[""; ""; ""; "g1"; "g2"; "h"]].
Proof. vm_compute. auto. Qed.

Example static_run :
  let tr := (Collect static_env static_args 0).2 in
  (Collect static_env static_args 0).1.1 = (Line126, None)
  ∧ reads tr
    = [inl ("orders-app", {[ "orders" := [0; 1]%Z ]}); inr {[ "orders" := [0; 1]%Z ]};
       inl ("payments", {[ "orders" := [0%Z] ]}); inr {[ "orders" := [0%Z] ]}]
  ∧ logged LInfo "Failed to collect consumerOffsets for group %s: %v" tr
    = [[AString "payments"; AError (mkError "offset fetch failed")]]
  ∧ logged LError "No topics specified for consumer group '%s'" tr = [[AString "idle"]]
  ∧ records tr
    = [ mkPartitionOffsets "orders" "0" (Some 100%Z) (Some 150%Z) (Some 50%Z);
        mkPartitionOffsets "orders" "1" None (Some 200%Z) None;
        mkPartitionOffsets "orders" "0" None (Some 150%Z) None;
        mkPartitionOffsets "orders" "1" None (Some 200%Z) None ].
Proof. vm_compute. auto 10. Qed.

(** ** The theorems at concrete runs *)

(** C1 at a run with 203 matching groups. *)
Lemma regex_mode_collects_first_200_matches_witness :
  spawned (Collect regex_env regex_args 0).2
  = (λ g, (GroupId g, Members g)) <$> take 200 (matching starts_with_g many_groups)
  ∧ length (spawned (Collect regex_env regex_args 0).2) ≤ 200
  ∧ logged LDebug "Reached 200 consumer group limit. Skipping consumer groups %v"
      (Collect regex_env regex_args 0).2
    = match GroupId <$> drop 200 (matching starts_with_g many_groups) with
      | [] => []
      | ids => [[AStrings ids]]
      end
  ∧ logged LDebug "Skipped collecting consumer offsets for unmatched consumer groups %v"
      (Collect regex_env regex_args 0).2
    = match GroupId <$> unmatching starts_with_g many_groups with
      | [] => []
      | ids => [[AStrings ids]]
      end
  ∧ ∀ i g, matching starts_with_g many_groups !! i = Some g →
      (i < 200 ∧ take 200 (matching starts_with_g many_groups) !! i = Some g)
      ∨ (200 ≤ i ∧ drop 200 (matching starts_with_g many_groups) !! (i - 200) = Some g).
Proof.
  apply (regex_mode_collects_first_200_matches regex_env regex_args 0
           starts_with_g tt tt 2 discovered 3 many_groups 4).
  - reflexivity.
  - exists 1. split; reflexivity.
  - reflexivity.
  - reflexivity.
Defined.

(** C2 at a run with three configured groups. *)
Lemma offsets_are_read_before_watermarks_witness :
  ∃ blocks,
    static_history (E:=static_env) tt tt blocks (Collect static_env static_args 0).2
    ∧ reads (Collect static_env static_args 0).2 = blocks ≫= reads
    ∧ Forall2 (λ entry blk,
         ∃ tp rest,
           collection_of (E:=static_env) tt entry tp rest blk
           ∧ ((size tp = 0 ∧ reads blk = [])
              ∨ ∃ o h w1 w2 w3 mid post,
                  getConsumerOffsets static_env entry.1 tp tt w1 = (o, w2)
                  ∧ getHighWaterMarks static_env tp tt w2 = (h, w3)
                  ∧ rest = EGetConsumerOffsets (E:=static_env) entry.1 tp tt o
                           :: mid ++ EGetHighWaterMarks (E:=static_env) tp tt h :: post
                  ∧ reads blk = [inl (entry.1, tp); inr tp]))
        (rangeMap static_env (ConsumerGroups static_args)) blocks.
Proof.
  apply (offsets_are_read_before_watermarks static_env static_args 0 tt tt 2).
  - reflexivity.
  - vm_compute. lia.
  - exists 1. split; reflexivity.
Defined.

(** C4 at a run with nothing configured and both handles created. *)
Lemma unconfigured_run_fails_and_collects_nothing_witness :
  is_Some (Collect quiet_env unconfigured 0).1.1.2
  ∧ Forall (λ ev, ¬ is_collection ev) (Collect quiet_env unconfigured 0).2
  ∧ (∀ c a w2, reaches_selection quiet_env 0 c a w2 →
       (Collect quiet_env unconfigured 0).1.1 = (Line123, Some ConfigurationError)).
Proof.
  apply (unconfigured_run_fails_and_collects_nothing quiet_env unconfigured 0).
  - reflexivity.
  - vm_compute. reflexivity.
Defined.

(** C4, as the claim states it, fails: nothing is configured, the
    client cannot be created, and what [Collect] returns is that
    failure, from line 31, and not the configuration error. *)
Lemma creation_failure_is_returned_not_configuration_error :
  ConsumerGroupRegex unconfigured = None
  ∧ size (ConsumerGroups unconfigured) = 0
  ∧ (Collect zookeeper_down unconfigured 0).1.1
    = (Line31, Some (mkError "zookeeper is down"))
  ∧ (Collect zookeeper_down unconfigured 0).1.1.2 ≠ Some ConfigurationError.
Proof. vm_compute. repeat split; discriminate. Qed.

(** C5 at a run whose groups cannot be listed. *)
Lemma discovery_failure_aborts_the_run_witness :
  (Collect unlisted_env regex_args 0).1.1
  = (Line57, Some (fmt_Errorf "failed to get list of consumer groups: "
                     (mkError "broker not available")))
  ∧ is_Some (Collect unlisted_env regex_args 0).1.1.2
  ∧ (∃ ra rc,
       (Collect unlisted_env regex_args 0).2
       = [ECreateClient (E:=unlisted_env) (tt, None);
          ECreateClusterAdmin (E:=unlisted_env) (tt, None)]
         ++ [EListConsumerGroups (E:=unlisted_env) tt
               (∅, Some (mkError "broker not available"))]
         ++ closing (E:=unlisted_env) tt ra tt rc)
  ∧ spawned (Collect unlisted_env regex_args 0).2 = []
  ∧ records (Collect unlisted_env regex_args 0).2 = []
  ∧ Forall (λ ev, ¬ is_sink_call ev) (Collect unlisted_env regex_args 0).2.
Proof.
  apply (discovery_failure_aborts_the_run unlisted_env regex_args 0
           starts_with_g tt tt 2 ∅ (Some (mkError "broker not available")) 3 [] None 4).
  - reflexivity.
  - exists 1. split; reflexivity.
  - reflexivity.
  - vm_compute. reflexivity.
  - left. eexists. reflexivity.
Defined.

(** C7 at a run where one of three groups has no topics. *)
Lemma group_without_topics_is_skipped_witness :
  (Collect static_env static_args 0).1.1 = (Line126, None)
  ∧ rangeMap static_env (ConsumerGroups static_args)
    ≡ₚ map_to_list (ConsumerGroups static_args)
  ∧ ∃ blocks,
      static_history (E:=static_env) tt tt blocks (Collect static_env static_args 0).2
      ∧ Forall2 (λ entry blk,
           ∃ tp rest,
             collection_of (E:=static_env) tt entry tp rest blk
             ∧ if decide (size tp = 0) then
                 rest = [ELog LError "No topics specified for consumer group '%s'"
                           [AString entry.1]]
                 ∧ records blk = []
                 ∧ logged LError "No topics specified for consumer group '%s'" blk
                   = [[AString entry.1]]
               else
                 logged LError "No topics specified for consumer group '%s'" blk = [])
          (rangeMap static_env (ConsumerGroups static_args)) blocks.
Proof.
  apply (group_without_topics_is_skipped static_env static_args 0 tt tt 2).
  - reflexivity.
  - vm_compute. lia.
  - exists 1. split; reflexivity.
Defined.

(** C7, as the claim states it, fails: the topics of the configured
    group resolve to a set with one topic and no partition, so with zero
    topic-partitions, and the run writes no skip entry for the group
    (the claim says exactly one): line 102 finds the map not empty and
    the reads are made. *)
Lemma topic_without_partitions_is_not_skipped :
  resolved (Collect quiet_env no_partitions_args 0).2 = [("grp", {[ "T" := [] ]})]
  ∧ topic_partitions {[ "T" := [] ]} = []
  ∧ logged LError "No topics specified for consumer group '%s'"
      (Collect quiet_env no_partitions_args 0).2 = []
  ∧ reads (Collect quiet_env no_partitions_args 0).2
    = [inl ("grp", {[ "T" := [] ]}); inr {[ "T" := [] ]}].
Proof. vm_compute. auto. Qed.

(** C9 at a run with three listed groups. *)
Lemma describe_gets_padded_identifier_list_witness :
  described (Collect regex_env regex_args 0).2 = [consumerGroupList regex_env discovered]
  ∧ length (consumerGroupList regex_env discovered) = 2 * size discovered
  ∧ take (size discovered) (consumerGroupList regex_env discovered)
    = replicate (size discovered) ""
  ∧ drop (size discovered) (consumerGroupList regex_env discovered)
    ≡ₚ (map_to_list discovered).*1.
Proof.
  apply (describe_gets_padded_identifier_list regex_env regex_args 0
           starts_with_g tt tt 2 discovered 3).
  - reflexivity.
  - exists 1. split; reflexivity.
  - reflexivity.
Defined.

(** * Further properties of collect.go *)

(** ** [setMetrics] *)

Section setMetrics_facts.
Variable E : Env.
Variable GlobalArgs : ArgumentList.

Lemma setMetrics_shape g data w :
  match Integration_Entity E g "ka-consumerGroup" (clusterIDAttr GlobalArgs) w with
  | ((ent, Some e), w1) =>
      setMetrics E GlobalArgs g data w
      = (Some e, w1, [EEntity g "ka-consumerGroup" (clusterIDAttr GlobalArgs) (ent, Some e)])
  | ((ent, None), w1) =>
      ∃ w' blocks,
        setMetrics E GlobalArgs g data w
        = (None, w',
           EEntity g "ka-consumerGroup" (clusterIDAttr GlobalArgs) (ent, None)
             :: concat blocks)
        ∧ Forall2 (record_block ent g) data blocks
  end.
Proof.
  unfold setMetrics, function, mbind, M_bind, bind, call, return_.
  fold (clusterIDAttr GlobalArgs).
  destruct (Integration_Entity E g "ka-consumerGroup" _ w) as [[ent [e|]] w1];
    [reflexivity|].
  set (body := λ (offsetData : partitionOffsets) (_ : unit), _).
  destruct (for_range_blocks (R:=option error) body (record_block ent g))
    with (l := data) (st := tt) (w := w1) as (st' & w' & ts & Hrun & Hts).
  { intros d [] w0. subst body. cbv beta.
    unfold mbind, M_bind, bind, call, log, emit, mret, M_ret, ret.
    fold (sample_attributes ent).
    destruct (NewMetricSet E ent _ _ w0) as [ms w2].
    destruct (MarshalMetrics E ms d w2) as [r w3].
    exists tt, w3. eexists. split; [|by exists ms, r].
    destruct r; reflexivity. }
  rewrite Hrun. unfold mret, M_ret, ret. exists w', ts. split; [|exact Hts].
  cbn. by rewrite app_nil_r.
Qed.

Lemma record_blocks_readings ent g data (blocks : list (list (Event E))) :
  Forall2 (record_block ent g) data blocks →
  records (concat blocks) = data
  ∧ metric_sets (concat blocks)
    = replicate (length data) (ent, "KafkaOffsetSample", sample_attributes ent)
  ∧ logged LError "Error Marshaling offset metrics for consumer group '%s': %s"
      (concat blocks)
    = (λ err, [AString g; AString (Error err)]) <$> marshal_failures (concat blocks)
  ∧ entities (concat blocks) = []
  ∧ logged LError "Error setting metrics for consumer group '%s': %s" (concat blocks) = [].
Proof.
  unfold records, metric_sets, logged, marshal_failures, entities.
  induction 1 as [|d blk data blocks (ms & r & ->) _ (IHr & IHm & IHl & IHe & IHs)]; [done|].
  cbn [concat length replicate]. rewrite !omap_app, fmap_app.
  rewrite IHr, IHm, IHl, IHe, IHs. by destruct r.
Qed.
End setMetrics_facts.

(** X1.  When the entity of the group can be had, [setMetrics] returns
    nil whatever the marshalling calls answer.  Its history is the call
    for the entity followed by one turn per record, in the order of the
    records: a new metric set named KafkaOffsetSample with the two
    attributes made of the entity's name, the marshalling of the record
    into that set, and, if that failed, one error entry with the group
    and the error.  So every record is handed to the sink once, also
    after a record that could not be marshalled. *)
Theorem setMetrics_marshals_every_record
    (E : Env) (GlobalArgs : ArgumentList) g data (w : World E) ent w1 :
  Integration_Entity E g "ka-consumerGroup" (clusterIDAttr GlobalArgs) w
  = ((ent, None), w1) →
  let r := (setMetrics E GlobalArgs g data w).1.1 in
  let tr := (setMetrics E GlobalArgs g data w).2 in
  r = None
  ∧ (∃ blocks,
       tr = EEntity g "ka-consumerGroup" (clusterIDAttr GlobalArgs) (ent, None)
            :: concat blocks
       ∧ Forall2 (record_block ent g) data blocks)
  ∧ records tr = data
  ∧ metric_sets tr
    = replicate (length data) (ent, "KafkaOffsetSample", sample_attributes ent)
  ∧ logged LError "Error Marshaling offset metrics for consumer group '%s': %s" tr
    = (λ err, [AString g; AString (Error err)]) <$> marshal_failures tr.
Proof.
  intros Hent r tr. subst r tr.
  pose proof (setMetrics_shape E GlobalArgs g data w) as Hshape.
  rewrite Hent in Hshape. destruct Hshape as (w' & blocks & -> & Hblocks).
  cbn [fst snd]. split; [reflexivity|]. split; [by exists blocks|].
  destruct (record_blocks_readings E ent g data blocks Hblocks) as (Hr & Hm & Hl & _ & _).
  unfold records, metric_sets, logged, marshal_failures in *. cbn [omap list_omap].
  by rewrite Hr, Hm, Hl.
Qed.

(** ** The static mode, with the emission *)

Section static_emission.
Variable E : Env.
Variable GlobalArgs : ArgumentList.

Lemma collectConfiguredGroup_detail {R} c entry st w :
  ∃ st' w' t,
    collectConfiguredGroup (R:=R) E GlobalArgs c entry st w = (Next st', w', t)
    ∧ group_block c entry t
    ∧ group_run GlobalArgs c entry t.
Proof.
  destruct (collectConfiguredGroup_run (R:=R) E GlobalArgs c entry st w)
    as (st' & w' & t & Hrun & Hblock).
  exists st', w', t. split; [exact Hrun|]. split; [exact Hblock|].
  revert Hrun. clear Hblock.
  unfold collectConfiguredGroup, group_run.
  unfold mbind, M_bind, bind, call, log, emit, invoke, mret, M_ret, ret.
  destruct (fillTopicPartitions E entry.1 entry.2 c w) as [tp w1].
  destruct (decide (size tp = 0)) as [Hz|Hnz].
  { intros [= _ _ <-]. exists tp. left. done. }
  destruct (getConsumerOffsets E entry.1 tp c w1) as [[o e1] w2].
  destruct e1 as [err1|]; cbn.
  all: destruct (getHighWaterMarks E tp c w2) as [[h e2] w4].
  all: destruct e2 as [err2|]; cbn.
  all: destruct (setMetrics E GlobalArgs entry.1 (populateOffsetStructs E o h) w4)
         as [[r w6] smtr] eqn:Hsm.
  all: destruct r as [err3|]; cbn.
  all: intros [= _ _ <-]; exists tp; right; split; [done|].
  all: match goal with
       | |- context [EGetConsumerOffsets _ _ _ (_, ?x1)] =>
           match goal with
           | |- context [EGetHighWaterMarks _ _ (_, ?x2)] =>
               eexists o, x1, h, x2, w4, _, w6, smtr
           end
       end; (split; [exact Hsm|]).
  all: cbn; rewrite ?app_nil_r; reflexivity.
Qed.

Lemma Collect_static_detail w c a w2 :
  ConsumerGroupRegex GlobalArgs = None →
  size (ConsumerGroups GlobalArgs) ≠ 0 →
  reaches_selection E w c a w2 →
  ∃ blocks,
    (Collect E GlobalArgs w).1.1 = (Line126, None)
    ∧ static_history c a blocks (Collect E GlobalArgs w).2
    ∧ Forall2 (λ entry blk, group_block c entry blk ∧ group_run GlobalArgs c entry blk)
        (rangeMap E (ConsumerGroups GlobalArgs)) blocks.
Proof.
  intros Hregex Hsize Hsel.
  destruct (Collect_selected E GlobalArgs w c a w2 Hsel)
    as (f & w3 & t3 & ra & rc & w5 & Hmode & ->).
  unfold collectSelected in Hmode. rewrite Hregex, decide_True in Hmode by done.
  unfold collectConfigured, mbind, M_bind, bind, log, emit in Hmode.
  destruct (for_range_blocks (R:=ReturnSite * option error)
              (collectConfiguredGroup E GlobalArgs c)
              (λ entry blk, group_block c entry blk ∧ group_run GlobalArgs c entry blk))
    with (l := rangeMap E (ConsumerGroups GlobalArgs)) (st := tt) (w := w2)
    as ([] & w' & blocks & Hrun & Hblocks).
  { intros entry st w0. apply collectConfiguredGroup_detail. }
  rewrite Hrun in Hmode. injection Hmode as <- <- <-.
  exists blocks. split; [reflexivity|]. split; [|exact Hblocks].
  exists ra, rc. reflexivity.
Qed.

Lemma group_run_readings c entry (blk : list (Event E)) :
  group_run GlobalArgs c entry blk →
  (∃ tp, size tp = 0
         ∧ blk = [EFillTopicPartitions entry.1 entry.2 c tp;
                  ELog LError "No topics specified for consumer group '%s'"
                    [AString entry.1]])
  ∨ ∃ tp o e1 h e2 ent eerr mid post,
      size tp ≠ 0
      ∧ blk = EFillTopicPartitions entry.1 entry.2 c tp
              :: EGetConsumerOffsets entry.1 tp c (o, e1)
              :: mid ++ EGetHighWaterMarks tp c (h, e2) :: post
      ∧ entities blk = [(entry.1, "ka-consumerGroup", clusterIDAttr GlobalArgs, (ent, eerr))]
      ∧ records blk
        = match eerr with
          | None => populateOffsetStructs E o h
          | Some _ => []
          end
      ∧ metric_sets blk
        = match eerr with
          | None => replicate (length (populateOffsetStructs E o h))
                      (ent, "KafkaOffsetSample", sample_attributes ent)
          | Some _ => []
          end
      ∧ logged LError "Error setting metrics for consumer group '%s': %s" blk
        = match eerr with
          | Some e => [[AString entry.1; AString (Error e)]]
          | None => []
          end.
Proof.
  intros (tp & [[Hz ->]|(Hnz & o & e1 & h & e2 & w & r & w' & smtr & Hsm & ->)]).
  { left. by exists tp. }
  right. pose proof (setMetrics_shape E GlobalArgs entry.1 (populateOffsetStructs E o h) w)
    as Hshape.
  destruct (Integration_Entity E entry.1 "ka-consumerGroup" _ w) as [[ent [e|]] w1].
  - rewrite Hsm in Hshape. injection Hshape as -> -> ->.
    exists tp, o, e1, h, e2, ent, (Some e). eexists _, _.
    split; [done|]. split; [reflexivity|].
    by destruct e1, e2.
  - destruct Hshape as (w'' & blocks & Hsm' & Hblocks).
    rewrite Hsm in Hsm'. injection Hsm' as -> -> ->.
    exists tp, o, e1, h, e2, ent, None. eexists _, _.
    split; [done|]. split; [reflexivity|].
    destruct (record_blocks_readings E ent entry.1 _ blocks Hblocks)
      as (Hr & Hm & _ & He & Hs).
    unfold records, metric_sets, logged, entities in *.
    destruct e1, e2; cbn; rewrite !omap_app, ?Hr, ?Hm, ?He, ?Hs;
      repeat (rewrite decide_False by (by intros [? ?]));
      cbn; rewrite ?app_nil_r; done.
Qed.

End static_emission.


(** X2.  In the static mode a group whose entity cannot be had (the
    only way [setMetrics] fails) costs that group its records and
    nothing else: the failure is written in one error entry with the
    group and the error, no metric set is created and no record is
    handed over for the group, the other groups are collected, and
    [Collect] returns nil.  The entity of a group is asked for at most
    once, under the group's name, the namespace ka-consumerGroup and the
    cluster name as its id attribute; a group without topics asks for
    none. *)
Theorem emission_failure_is_logged_and_isolated
    (E : Env) (GlobalArgs : ArgumentList) (w : World E) c a w2 :
  ConsumerGroupRegex GlobalArgs = None →
  size (ConsumerGroups GlobalArgs) ≠ 0 →
  reaches_selection E w c a w2 →
  let result := (Collect E GlobalArgs w).1.1 in
  let tr := (Collect E GlobalArgs w).2 in
  result = (Line126, None)
  ∧ rangeMap E (ConsumerGroups GlobalArgs) ≡ₚ map_to_list (ConsumerGroups GlobalArgs)
  ∧ ∃ blocks,
      static_history c a blocks tr
      ∧ Forall2 (λ entry blk,
           ∃ tp rest,
             collection_of c entry tp rest blk
             ∧ ((size tp = 0 ∧ entities blk = [])
                ∨ ∃ ent eerr,
                    entities blk
                    = [(entry.1, "ka-consumerGroup", clusterIDAttr GlobalArgs, (ent, eerr))]
                    ∧ logged LError "Error setting metrics for consumer group '%s': %s" blk
                      = match eerr with
                        | Some e => [[AString entry.1; AString (Error e)]]
                        | None => []
                        end
                    ∧ (is_Some eerr → metric_sets blk = [] ∧ records blk = [])))
          (rangeMap E (ConsumerGroups GlobalArgs)) blocks.
Proof.
  intros Hregex Hsize Hsel result tr.
  destruct (Collect_static_detail E GlobalArgs w c a w2 Hregex Hsize Hsel)
    as (blocks & Hresult & Hhist & Hblocks).
  split; [exact Hresult|]. split; [apply rangeMap_perm|].
  exists blocks. split; [exact Hhist|].
  eapply Forall2_impl; [exact Hblocks|].
  intros entry blk [Hblk Hrun].
  destruct (group_block_collection E c entry blk Hblk) as (tp & rest & Hcoll).
  exists tp, rest. split; [exact Hcoll|].
  destruct Hcoll as [-> _].
  destruct (group_run_readings E GlobalArgs c entry _ Hrun)
    as [(tp' & Hz & Heq)|(tp' & o & e1 & h & e2 & ent & eerr & mid & post
                          & Hnz & Heq & Hent & Hrec & Hsets & Hlog)].
  - injection Heq as <- ->. left. done.
  - right. exists ent, eerr. split; [exact Hent|]. split; [exact Hlog|].
    intros [e ->]. done.
Qed.

(** X3.  In the static mode the records handed to the sink for a group
    are the ones [populateOffsetStructs] makes of the two snapshots that
    the reads of that group returned, in the order it gives them, each in
    a metric set of its own.  [Collect] has no guard between the reads
    and the emission: this is so whether or not a read returned an
    error.  Only a group without topics, or one whose entity cannot be
    had, hands over nothing. *)
Theorem emitted_records_are_assembled_from_both_reads
    (E : Env) (GlobalArgs : ArgumentList) (w : World E) c a w2 :
  ConsumerGroupRegex GlobalArgs = None →
  size (ConsumerGroups GlobalArgs) ≠ 0 →
  reaches_selection E w c a w2 →
  let tr := (Collect E GlobalArgs w).2 in
  ∃ blocks,
    static_history c a blocks tr
    ∧ records tr = blocks ≫= records
    ∧ Forall2 (λ entry blk,
         ∃ tp rest,
           collection_of c entry tp rest blk
           ∧ ((size tp = 0 ∧ records blk = [])
              ∨ ∃ o e1 h e2 ent eerr mid post,
                  rest = EGetConsumerOffsets entry.1 tp c (o, e1)
                         :: mid ++ EGetHighWaterMarks tp c (h, e2) :: post
                  ∧ entities blk
                    = [(entry.1, "ka-consumerGroup", clusterIDAttr GlobalArgs, (ent, eerr))]
                  ∧ records blk
                    = match eerr with
                      | None => populateOffsetStructs E o h
                      | Some _ => []
                      end
                  ∧ metric_sets blk
                    = match eerr with
                      | None => replicate (length (populateOffsetStructs E o h))
                                  (ent, "KafkaOffsetSample", sample_attributes ent)
                      | Some _ => []
                      end))
        (rangeMap E (ConsumerGroups GlobalArgs)) blocks.
Proof.
  intros Hregex Hsize Hsel tr.
  destruct (Collect_static_detail E GlobalArgs w c a w2 Hregex Hsize Hsel)
    as (blocks & _ & Hhist & Hblocks).
  exists blocks. split; [exact Hhist|]. split.
  - destruct Hhist as (ra & rc & Htr). fold tr in Htr. rewrite Htr.
    rewrite !records_app.
    assert (records (closing a ra c rc) = []) as ->
      by (eapply omap_ignored; [apply closing_only_close | by intros [] [|]]).
    rewrite app_nil_r. change (records (concat blocks) = blocks ≫= records). clear.
    induction blocks as [|blk blocks IH]; [done|].
    change (concat (blk :: blocks)) with (blk ++ concat blocks).
    by rewrite records_app, IH, bind_cons.
  - eapply Forall2_impl; [exact Hblocks|].
    intros entry blk [Hblk Hrun].
    destruct (group_block_collection E c entry blk Hblk) as (tp & rest & Hcoll).
    exists tp, rest. split; [exact Hcoll|].
    destruct Hcoll as [-> _].
    destruct (group_run_readings E GlobalArgs c entry _ Hrun)
      as [(tp' & Hz & Heq)|(tp' & o & e1 & h & e2 & ent & eerr & mid & post
                            & Hnz & Heq & Hent & Hrec & Hsets & Hlog)].
    + injection Heq as <- ->. left. done.
    + injection Heq as <- ->. right.
      exists o, e1, h, e2, ent, eerr, mid, post. done.
Qed.

(** ** The two modes, the wait group and the handles *)

Section mode_facts.
Variable E : Env.
Variable GlobalArgs : ArgumentList.

Lemma wait_group_tasks (c : Client E) (a : ClusterAdmin E) groups :
  wait_group (tasks c a groups) = groups ≫= λ _, [WgAdd 1; WgGo].
Proof.
  unfold tasks, wait_group. induction groups as [|g groups IH]; [done|].
  cbn. do 2 f_equal. exact IH.
Qed.

(** The log entries of the collection of a group are written at the
    levels Error and Info, and none of them is an entry of the deferred
    closures. *)
Lemma logged_block lvl format (c : Client E) entry blk :
  group_block c entry blk → lvl ≠ LError → lvl ≠ LInfo → logged lvl format blk = [].
Proof.
  intros (tp & rest & -> & Hrest) Herror Hinfo.
  destruct (decide (size tp = 0)) as [Hz|Hnz].
  - subst rest. unfold logged. cbn. rewrite decide_False; [done|]. by intros [<- _].
  - destruct Hrest as (o & e1 & h & e2 & mtr & -> & _ & Hem & _).
    pose proof (logged_emission E lvl format mtr Hem (or_introl Herror)) as Hm.
    unfold logged in *.
    destruct e1, e2; cbn; rewrite ?omap_app, ?Hm; cbn;
      repeat (rewrite decide_False by (by intros [<- _])); done.
Qed.

Lemma logged_blocks lvl format (c : Client E) entries blocks :
  Forall2 (group_block c) entries blocks → lvl ≠ LError → lvl ≠ LInfo →
  logged lvl format (concat blocks) = [].
Proof.
  intros Hblocks Herror Hinfo.
  induction Hblocks as [|entry blk entries blocks Hblk _ IH]; [done|].
  change (concat (blk :: blocks)) with (blk ++ concat blocks).
  by rewrite logged_app, IH, (logged_block lvl format c entry blk).
Qed.

Lemma closeClient_answer c w :
  closeClient E c w
  = (Next tt, (Client_Close E c w).2,
     EClientClose c (Client_Close E c w).1
       :: close_log "Error closing client connection: %s" (Client_Close E c w).1).
Proof.
  unfold closeClient, mbind, M_bind, bind, call, log, emit, mret, M_ret, ret.
  by destruct (Client_Close E c w) as [[e|] w'].
Qed.

Lemma closeClusterAdmin_answer a w :
  closeClusterAdmin E a w
  = (Next tt, (ClusterAdmin_Close E a w).2,
     EAdminClose a (ClusterAdmin_Close E a w).1
       :: close_log "Error closing clusterAdmin connection: %s" (ClusterAdmin_Close E a w).1).
Proof.
  unfold closeClusterAdmin, mbind, M_bind, bind, call, log, emit, mret, M_ret, ret.
  by destruct (ClusterAdmin_Close E a w) as [[e|] w'].
Qed.

(** What the chosen mode does, by the configuration: its kinds of
    events, its use of the wait group, its warning. *)
Lemma collectSelected_kinds c a w2 :
  ∃ f w3 t3,
    collectSelected E GlobalArgs c a None w2 = (f, w3, t3)
    ∧ (is_Some (ConsumerGroupRegex GlobalArgs) → Forall (λ ev, ¬ is_static_only ev) t3)
    ∧ (ConsumerGroupRegex GlobalArgs = None → Forall (λ ev, ¬ is_regex_only ev) t3)
    ∧ ((wait_group t3 = [] ∧ spawned t3 = [])
       ∨ (f = Next tt
          ∧ wait_group t3 = (spawned t3 ≫= λ _, [WgAdd 1; WgGo]) ++ [WgWait]))
    ∧ logged LWarn "Argument 'consumer_groups' is deprecated and will be removed in a future version. Use 'consumer_group_regex' instead." t3
      = (if decide (ConsumerGroupRegex GlobalArgs = None
                    ∧ size (ConsumerGroups GlobalArgs) ≠ 0)
         then [[]] else [])
    ∧ logged LDebug "Error closing clusterAdmin connection: %s" t3 = []
    ∧ logged LDebug "Error closing client connection: %s" t3 = []
    ∧ (ConsumerGroupRegex GlobalArgs = None →
       f = if decide (size (ConsumerGroups GlobalArgs) ≠ 0) then Next tt
           else Return (Line123, Some ConfigurationError)).
Proof.
  unfold collectSelected. destruct (ConsumerGroupRegex GlobalArgs) as [regex|].
  - rewrite decide_False by (by intros [? _]). rewrite collectMatching_run.
    destruct (ListConsumerGroups E a w2) as [[m [e|]] w3].
    { eexists _, _, _. split; [reflexivity|].
      repeat split; try done; [intros _; each_event | by left]. }
    destruct (DescribeConsumerGroups E a _ w3) as [[groups [e|]] w4].
    { eexists _, _, _. split; [reflexivity|].
      repeat split; try done; [intros _; each_event | by left]. }
    eexists _, _, _. split; [reflexivity|].
    assert (∀ lvl format,
              logged lvl format
                (EListConsumerGroups a (m, None)
                   :: EDescribeConsumerGroups a (consumerGroupList E m) (groups, None)
                   :: tasks c a (take 200 (matching regex groups))
                   ++ selection_logs regex groups ++ [EWgWait])
              = logged lvl format (selection_logs (E:=E) regex groups)) as Hlogged.
    { intros lvl format.
      change (logged lvl format (tasks c a (take 200 (matching regex groups))
                                   ++ selection_logs regex groups ++ [EWgWait])
              = logged lvl format (selection_logs (E:=E) regex groups)).
      rewrite !logged_app, logged_tasks. cbn. by rewrite app_nil_r. }
    rewrite !Hlogged. split; [|split; [done|split; [|split; [|split; [|split; [|done]]]]]].
    + intros _. do 2 (apply Forall_cons_2; [simpl; tauto|]).
      apply Forall_app. split; [|apply Forall_app; split; [|each_event]].
      * eapply Forall_impl; [apply tasks_only_spawn|]. intros []; simpl; tauto.
      * eapply Forall_impl; [apply selection_logs_only_log|]. intros []; simpl; tauto.
    + right. split; [done|].
      assert (wait_group (selection_logs (E:=E) regex groups) = []) as Hw.
      { eapply omap_ignored; [apply selection_logs_only_log|]. by intros []. }
      assert (spawned (selection_logs (E:=E) regex groups) = []) as Hs.
      { eapply omap_ignored; [apply selection_logs_only_log|]. by intros []. }
      change (wait_group (tasks c a (take 200 (matching regex groups))
                            ++ selection_logs regex groups ++ [EWgWait])
              = (spawned (tasks c a (take 200 (matching regex groups))
                            ++ selection_logs regex groups ++ [EWgWait])
                   ≫= λ _, [WgAdd 1; WgGo]) ++ [WgWait]).
      rewrite !spawned_app, Hs, spawned_tasks.
      unfold wait_group at 1. rewrite !omap_app.
      change (omap ?f ?l) with (wait_group l).
      rewrite Hw, wait_group_tasks.
      cbn. rewrite !app_nil_r. f_equal.
      generalize (take 200 (matching regex groups)). intros l.
      induction l as [|g l IH]; [done|]. cbn. by rewrite IH.
    + unfold selection_logs, logged.
      destruct (GroupId <$> unmatching regex groups);
        destruct (GroupId <$> drop 200 (matching regex groups)); reflexivity.
    + unfold selection_logs, logged.
      destruct (GroupId <$> unmatching regex groups);
        destruct (GroupId <$> drop 200 (matching regex groups)); reflexivity.
    + unfold selection_logs, logged.
      destruct (GroupId <$> unmatching regex groups);
        destruct (GroupId <$> drop 200 (matching regex groups)); reflexivity.
  - destruct (decide (size (ConsumerGroups GlobalArgs) ≠ 0)) as [Hsize|Hsize].
    + rewrite decide_True by done.
      destruct (collectConfigured_run E GlobalArgs c w2) as (w3 & blocks & -> & Hblocks).
      pose proof (blocks_events c _ _ Hblocks) as Hev.
      eexists _, _, _. split; [reflexivity|].
      split; [by intros [? ?]|]. split; [|split; [|split; [|split; [|split]]]].
      * intros _. apply Forall_cons_2; [simpl; tauto|].
        eapply Forall_impl; [exact Hev|]. intros []; simpl; tauto.
      * left. split.
        -- change (wait_group (concat blocks) = []).
           eapply omap_ignored; [exact Hev|]. by intros [].
        -- change (spawned (concat blocks) = []).
           eapply omap_ignored; [exact Hev|]. by intros [].
      * change (?x :: concat blocks) with ([x] ++ concat blocks).
        by rewrite logged_app, (logged_blocks _ _ c _ _ Hblocks).
      * change (?x :: concat blocks) with ([x] ++ concat blocks).
        by rewrite logged_app, (logged_blocks _ _ c _ _ Hblocks).
      * change (?x :: concat blocks) with ([x] ++ concat blocks).
        by rewrite logged_app, (logged_blocks _ _ c _ _ Hblocks).
      * done.
    + rewrite decide_False by (by intros [_ ?]).
      eexists _, _, _. split; [reflexivity|].
      split; [by intros [? ?]|]. split; [intros _; constructor|].
      split; [by left|]. done.
Qed.

Lemma go_statements_tasks (c : Client E) (a : ClusterAdmin E) groups :
  go_statements (tasks c a groups) = go_tasks c a groups.
Proof.
  unfold tasks, go_statements, go_tasks. induction groups as [|g groups IH]; [done|].
  cbn. f_equal. exact IH.
Qed.

(** The join of the chosen mode: the tasks it started were given the
    two handles of the run; if the mode uses the wait group at all, it
    raised the counter by one before each go statement and ends with the
    wait, and the world it leaves is the one in which that wait
    returned, called for the counter at the number of go statements and
    for the tasks they started. *)
Lemma collectSelected_join c a w2 :
  ∃ f w3 t3,
    collectSelected E GlobalArgs c a None w2 = (f, w3, t3)
    ∧ Forall (λ ev, ¬ is_close ev) t3
    ∧ go_statements t3 = (λ gm, (c, a, gm.1, gm.2)) <$> spawned t3
    ∧ ((go_statements t3 = [] ∧ wait_group t3 = [])
       ∨ ∃ pre wj,
           t3 = pre ++ [EWgWait]
           ∧ wait_group t3 = (go_statements t3 ≫= λ _, [WgAdd 1; WgGo]) ++ [WgWait]
           ∧ w3 = WaitGroup_Wait E GlobalArgs (Z.of_nat (length (go_statements t3)))
                    (go_statements t3) wj).
Proof.
  destruct (collectSelected_body E GlobalArgs c a w2) as (f & w3 & t3 & Hmode & Hno & _).
  exists f, w3, t3. split; [exact Hmode|]. split; [exact Hno|]. clear Hno.
  revert Hmode. unfold collectSelected.
  destruct (ConsumerGroupRegex GlobalArgs) as [regex|].
  - rewrite collectMatching_run.
    destruct (ListConsumerGroups E a w2) as [[m [e|]] w4].
    { intros [= <- <- <-]. split; [done|]. by left. }
    destruct (DescribeConsumerGroups E a _ w4) as [[groups [e|]] w5].
    { intros [= <- <- <-]. split; [done|]. by left. }
    intros [= <- <- <-].
    set (T := take 200 (matching regex groups)).
    assert (go_statements (selection_logs (E:=E) regex groups) = []) as Hg.
    { eapply omap_ignored; [apply selection_logs_only_log|]. by intros []. }
    assert (spawned (selection_logs (E:=E) regex groups) = []) as Hs.
    { eapply omap_ignored; [apply selection_logs_only_log|]. by intros []. }
    assert (wait_group (selection_logs (E:=E) regex groups) = []) as Hw.
    { eapply omap_ignored; [apply selection_logs_only_log|]. by intros []. }
    assert (go_statements
              (EListConsumerGroups a (m, None)
                 :: EDescribeConsumerGroups a (consumerGroupList E m) (groups, None)
                 :: tasks c a T ++ selection_logs regex groups ++ [EWgWait])
            = go_tasks c a T) as ->.
    { change (go_statements (tasks c a T ++ selection_logs regex groups ++ [EWgWait])
              = go_tasks c a T).
      unfold go_statements in *. rewrite !omap_app, Hg.
      change (omap ?f (tasks c a T)) with (go_statements (tasks c a T)).
      rewrite go_statements_tasks. cbn. by rewrite app_nil_r. }
    assert (spawned
              (EListConsumerGroups a (m, None)
                 :: EDescribeConsumerGroups a (consumerGroupList E m) (groups, None)
                 :: tasks c a T ++ selection_logs regex groups ++ [EWgWait])
            = (λ g, (GroupId g, Members g)) <$> T) as ->.
    { change (spawned (tasks c a T ++ selection_logs regex groups ++ [EWgWait])
              = (λ g, (GroupId g, Members g)) <$> T).
      rewrite !spawned_app, Hs, spawned_tasks. cbn. by rewrite app_nil_r. }
    split.
    { unfold go_tasks. rewrite <-list_fmap_compose. reflexivity. }
    right.
    exists (EListConsumerGroups a (m, None)
              :: EDescribeConsumerGroups a (consumerGroupList E m) (groups, None)
              :: tasks c a T ++ selection_logs regex groups), w5.
    split; [by rewrite 2!app_comm_cons, app_assoc|]. split.
    + change (wait_group (tasks c a T ++ selection_logs regex groups ++ [EWgWait])
              = (go_tasks c a T ≫= λ _, [WgAdd 1; WgGo]) ++ [WgWait]).
      unfold wait_group at 1. rewrite !omap_app.
      change (omap ?f ?l) with (wait_group l).
      rewrite Hw, wait_group_tasks. cbn. rewrite ?app_nil_r. f_equal.
      unfold go_tasks. generalize T. intros l.
      induction l as [|g l IH]; [done|]. cbn. by rewrite IH.
    + unfold go_tasks. by rewrite length_fmap.
  - destruct (decide (size (ConsumerGroups GlobalArgs) ≠ 0)) as [Hsize|Hsize].
    + destruct (collectConfigured_run E GlobalArgs c w2) as (w4 & blocks & -> & Hblocks).
      pose proof (blocks_events c _ _ Hblocks) as Hev.
      intros [= <- <- <-].
      assert (go_statements (concat blocks) = []) as Hg
        by (eapply omap_ignored; [exact Hev|]; by intros []).
      assert (spawned (concat blocks) = []) as Hs
        by (eapply omap_ignored; [exact Hev|]; by intros []).
      assert (wait_group (concat blocks) = []) as Hw
        by (eapply omap_ignored; [exact Hev|]; by intros []).
      unfold go_statements, spawned, wait_group in *. cbn. rewrite Hg, Hs, Hw.
      split; [done|]. by left.
    + intros [= <- <- <-]. split; [done|]. by left.
Qed.
End mode_facts.

Section run_facts.
Variable E : Env.
Variable GlobalArgs : ArgumentList.

(** The three ways a run goes, with the answers of the closes. *)
Lemma Collect_cases w :
  (∃ c e w1,
     CreateClient E w = ((c, Some e), w1)
     ∧ Collect E GlobalArgs w = ((Line31, Some e), w1, [ECreateClient (c, Some e)]))
  ∨ (∃ c w1 a e w2 rc w3,
       CreateClient E w = ((c, None), w1)
       ∧ CreateClusterAdmin E w1 = ((a, Some e), w2)
       ∧ Client_Close E c w2 = (rc, w3)
       ∧ Collect E GlobalArgs w
         = ((Line41, Some e), w3,
            ECreateClient (c, None) :: ECreateClusterAdmin (a, Some e)
              :: EClientClose c rc :: close_log "Error closing client connection: %s" rc))
  ∨ (∃ c a w2 f w3 t3 ra w4 rc w5,
       reaches_selection E w c a w2
       ∧ collectSelected E GlobalArgs c a None w2 = (f, w3, t3)
       ∧ ClusterAdmin_Close E a w3 = (ra, w4)
       ∧ Client_Close E c w4 = (rc, w5)
       ∧ Collect E GlobalArgs w
         = (exit_of f, w5,
            ECreateClient (c, None) :: ECreateClusterAdmin (a, None)
              :: t3 ++ closing a ra c rc)).
Proof.
  rewrite Collect_unfold.
  destruct (CreateClient E w) as [[c [e|]] w1] eqn:Hc.
  { left. by exists c, e, w1. }
  destruct (CreateClusterAdmin E w1) as [[a [e|]] w2] eqn:Ha.
  - right. left. rewrite closeClient_answer.
    destruct (Client_Close E c w2) as [rc w3] eqn:Hclose.
    by exists c, w1, a, e, w2, rc, w3.
  - right. right.
    destruct (collectSelected E GlobalArgs c a None w2) as [[f w3] t3] eqn:Hmode.
    rewrite closeClusterAdmin_answer.
    destruct (ClusterAdmin_Close E a w3) as [ra w4] eqn:Hra. cbn [fst snd].
    rewrite closeClient_answer.
    destruct (Client_Close E c w4) as [rc w5] eqn:Hrc. cbn [fst snd].
    exists c, a, w2, f, w3, t3, ra, w4, rc, w5.
    split; [by exists w1|]. done.
Qed.

Lemma logged_around lvl format (c : Client E) rc0 (a : ClusterAdmin E) ra0 t ra rc :
  logged lvl format (ECreateClient (c, rc0) :: ECreateClusterAdmin (a, ra0)
                       :: t ++ closing a ra c rc)
  = logged lvl format t ++ logged lvl format (closing a ra c rc).
Proof. by rewrite <-logged_app. Qed.

Lemma wait_group_around (c : Client E) rc0 (a : ClusterAdmin E) ra0 t ra rc :
  wait_group (ECreateClient (c, rc0) :: ECreateClusterAdmin (a, ra0)
                :: t ++ closing a ra c rc)
  = wait_group t
  ∧ spawned (ECreateClient (c, rc0) :: ECreateClusterAdmin (a, ra0)
               :: t ++ closing a ra c rc)
    = spawned t.
Proof.
  split.
  - change (wait_group (t ++ closing a ra c rc) = wait_group t).
    assert (wait_group (closing a ra c rc) = []) as Hclosing.
    { eapply omap_ignored; [apply closing_only_close|]. intros []; simpl; tauto. }
    unfold wait_group in *. by rewrite omap_app, Hclosing, app_nil_r.
  - change (spawned (t ++ closing a ra c rc) = spawned t).
    assert (spawned (closing a ra c rc) = []) as Hclosing.
    { eapply omap_ignored; [apply closing_only_close|]. intros []; simpl; tauto. }
    by rewrite spawned_app, Hclosing, app_nil_r.
Qed.

Lemma logged_close_entries (a : ClusterAdmin E) ra (c : Client E) rc :
  logged LDebug "Error closing clusterAdmin connection: %s" (closing a ra c rc)
  = match ra with Some e => [[AString (Error e)]] | None => [] end
  ∧ logged LDebug "Error closing client connection: %s" (closing a ra c rc)
    = match rc with Some e => [[AString (Error e)]] | None => [] end.
Proof. unfold closing. by destruct ra, rc. Qed.

(** Nothing before the closes is a close: the history up to the first
    close of a run with both handles is the creations and the chosen
    mode. *)
Lemma until_close_body (pre : list (Event E)) (a : ClusterAdmin E) ra (c : Client E) rc :
  Forall (λ ev, ¬ is_close ev) pre →
  until_close (pre ++ closing a ra c rc) = pre.
Proof.
  induction 1 as [|ev pre Hev _ IH]; [done|].
  cbn [app until_close]. rewrite IH. by destruct ev; simpl in Hev.
Qed.

(** What [Collect] itself does in the regex mode depends on the
    configuration through the regex only; the rest of the
    configuration reaches the run through the tasks, that is, through
    the world in which the wait for them returns. *)
Lemma collectMatching_configuration (args' : ArgumentList) regex c a w :
  (collectMatching E GlobalArgs regex c a None w).1.1
  = (collectMatching E args' regex c a None w).1.1
  ∧ (collectMatching E GlobalArgs regex c a None w).2
    = (collectMatching E args' regex c a None w).2
  ∧ ((∀ n tasks w', WaitGroup_Wait E GlobalArgs n tasks w' = WaitGroup_Wait E args' n tasks w') →
     collectMatching E GlobalArgs regex c a None w
     = collectMatching E args' regex c a None w).
Proof.
  rewrite 2!collectMatching_run.
  destruct (ListConsumerGroups E a w) as [[m [e|]] w1]; [done|].
  destruct (DescribeConsumerGroups E a _ w1) as [[groups [e|]] w2]; [done|].
  split; [done|]. split; [done|]. intros Hwait. by rewrite Hwait.
Qed.
End run_facts.

(** C8.  Whenever the client was created, [Client.Close] is called on
    it, once, and is the last call of the run (only the entry logging
    its own failure can follow); its answer is the one of the handle in
    the world the run had reached, and the world it leaves is the one
    the run ends in.  Whenever the cluster admin was created as well,
    the history is: both creations, the chosen mode, which closes
    nothing, then [ClusterAdmin.Close] in the world the mode left and
    [Client.Close] in the world that close left, each once.  Every go
    statement is in the mode's part, and hands its task the two handles
    that are closed afterwards.  The mode either starts no task and does
    not touch the wait group, or raises the counter by one immediately
    before each go statement and ends with [wg.Wait()], which is then
    called for a counter equal to the number of started tasks and for
    exactly those tasks; the world in which it returns, the tasks being
    done, is the one in which [ClusterAdmin.Close] is called.  This
    holds for every run, so for every return statement. *)
Theorem handles_are_closed_on_every_exit
    (E : Env) (GlobalArgs : ArgumentList) (w : World E) :
  let run := Collect E GlobalArgs w in
  let tr := run.2 in
  (∀ c w1, CreateClient E w = ((c, None), w1) →
     client_closes tr = [c]
     ∧ ∃ pre wc,
         tr = pre ++ EClientClose c (Client_Close E c wc).1
                  :: close_log "Error closing client connection: %s"
                       (Client_Close E c wc).1
         ∧ run.1.2 = (Client_Close E c wc).2)
  ∧ (∀ c a w2, reaches_selection E w c a w2 →
     admin_closes tr = [a]
     ∧ ∃ f w3 body,
         collectSelected E GlobalArgs c a None w2 = (f, w3, body)
         ∧ tr = ECreateClient (c, None) :: ECreateClusterAdmin (a, None)
                  :: body
                  ++ closing a (ClusterAdmin_Close E a w3).1
                       c (Client_Close E c (ClusterAdmin_Close E a w3).2).1
         ∧ Forall (λ ev, ¬ is_close ev) body
         ∧ go_statements tr = go_statements body
         ∧ go_statements body = (λ gm, (c, a, gm.1, gm.2)) <$> spawned body
         ∧ ((go_statements body = [] ∧ wait_group body = [])
            ∨ ∃ pre wj,
                body = pre ++ [EWgWait]
                ∧ wait_group body
                  = (go_statements body ≫= λ _, [WgAdd 1; WgGo]) ++ [WgWait]
                ∧ w3 = WaitGroup_Wait E GlobalArgs
                         (Z.of_nat (length (go_statements body)))
                         (go_statements body) wj)).
Proof.
  intros run tr. subst run tr. split.
  - intros c w1 Hc.
    destruct (Collect_cases E GlobalArgs w)
      as [(c' & e & w1' & Hc' & _)
         |[(c' & w1' & a & e & w2 & rc & w3 & Hc' & _ & Hclose & ->)
          |(c' & a & w2 & f & w3 & t3 & ra & w4 & rc & w5
            & (w1' & Hc' & _) & Hmode & Hra & Hrc & ->)]];
      rewrite Hc in Hc'; [done| |]; injection Hc' as <- <-; cbn [fst snd].
    + split; [by destruct rc|].
      exists [ECreateClient (c, None); ECreateClusterAdmin (a, Some e)], w2.
      by rewrite Hclose.
    + destruct (collectSelected_body E GlobalArgs c a w2) as (f' & w3' & t3' & Hmode' & Hno & _).
      rewrite Hmode in Hmode'. injection Hmode' as <- <- <-. split.
      * rewrite 2!app_comm_cons. unfold client_closes. rewrite omap_app.
        fold (client_closes (closing a ra c rc)).
        rewrite (proj1 (closes_of_closing E a ra c rc)). cbn.
        apply no_closes in Hno as [Hno _]. unfold client_closes in Hno. by rewrite Hno.
      * exists (ECreateClient (c, None) :: ECreateClusterAdmin (a, None)
                  :: t3 ++ EAdminClose a ra
                  :: close_log "Error closing clusterAdmin connection: %s" ra), w4.
        rewrite Hrc. cbn [fst snd]. split; [|done].
        unfold closing. cbn. rewrite <-!app_assoc. reflexivity.
  - intros c a w2 (w1 & Hc & Ha).
    destruct (collectSelected_join E GlobalArgs c a w2)
      as (f & w3 & t3 & Hmode & Hno & Htasks & Hjoin).
    assert (Collect E GlobalArgs w
            = (exit_of f, (Client_Close E c (ClusterAdmin_Close E a w3).2).2,
               ECreateClient (c, None) :: ECreateClusterAdmin (a, None)
                 :: t3 ++ closing a (ClusterAdmin_Close E a w3).1 c
                            (Client_Close E c (ClusterAdmin_Close E a w3).2).1)) as ->.
    { rewrite Collect_unfold, Hc, Ha, Hmode, closeClusterAdmin_answer, closeClient_answer.
      reflexivity. }
    cbn [snd]. split.
    + rewrite 2!app_comm_cons. unfold admin_closes. rewrite omap_app.
      fold (admin_closes (closing a (ClusterAdmin_Close E a w3).1 c
                            (Client_Close E c (ClusterAdmin_Close E a w3).2).1)).
      rewrite (proj2 (closes_of_closing E a _ c _)). cbn.
      apply no_closes in Hno as [_ Hno']. unfold admin_closes in Hno'. by rewrite Hno'.
    + exists f, w3, t3. split; [exact Hmode|]. split; [reflexivity|].
      split; [exact Hno|]. split; [|split; [exact Htasks | exact Hjoin]].
      change (go_statements (t3 ++ closing a (ClusterAdmin_Close E a w3).1 c
                                     (Client_Close E c (ClusterAdmin_Close E a w3).2).1)
              = go_statements t3).
      assert (∀ ra rc, go_statements (closing a ra c rc) = []) as Hclosing.
      { intros ra rc. eapply omap_ignored; [apply closing_only_close|].
        intros []; simpl; tauto. }
      unfold go_statements in *. by rewrite omap_app, Hclosing, app_nil_r.
Qed.

(** X4.  The regex mode takes precedence.  When [consumer_group_regex]
    is configured, line 50 chooses the regex mode whatever else is
    configured.  What [Collect] returns and its history up to the first
    close (the creations, the discovery, the go statements with their
    arguments, the aggregated entries, the wait) are the same for every
    [consumer_groups] mapping and cluster name.  The rest of the
    configuration can reach the run only through the started tasks: if
    the wait for the tasks returns in the same world for both
    configurations, the whole run is the same.  The mapping is never
    ranged over (no topic is resolved, no offset or watermark is read,
    nothing is emitted by [Collect] itself), and the deprecation warning
    of line 97 is not written. *)
Theorem regex_mode_takes_precedence
    (E : Env) (GlobalArgs : ArgumentList) (regex : Regexp) (w : World E) :
  ConsumerGroupRegex GlobalArgs = Some regex →
  (∀ groups name,
     let args' := mkArgs (Some regex) groups name in
     (Collect E GlobalArgs w).1.1 = (Collect E args' w).1.1
     ∧ until_close (Collect E GlobalArgs w).2 = until_close (Collect E args' w).2
     ∧ ((∀ n tasks w',
           WaitGroup_Wait E GlobalArgs n tasks w' = WaitGroup_Wait E args' n tasks w') →
        Collect E GlobalArgs w = Collect E args' w))
  ∧ Forall (λ ev, ¬ is_static_only ev) (Collect E GlobalArgs w).2
  ∧ logged LWarn "Argument 'consumer_groups' is deprecated and will be removed in a future version. Use 'consumer_group_regex' instead." (Collect E GlobalArgs w).2 = [].
Proof.
  intros Hregex. split.
  { intros groups name args'. rewrite 2!Collect_unfold.
    destruct (CreateClient E w) as [[c [e|]] w1]; [done|].
    destruct (CreateClusterAdmin E w1) as [[a [e|]] w2]; [done|].
    destruct (collectSelected_body E GlobalArgs c a w2) as (f & w3 & t3 & Hmode & Hno & _).
    destruct (collectMatching_configuration E GlobalArgs args' regex c a w2)
      as (Hf & Ht & Hall).
    assert (collectSelected E args' c a None w2
            = collectMatching E args' regex c a None w2) as Hmode' by reflexivity.
    assert (collectSelected E GlobalArgs c a None w2
            = collectMatching E GlobalArgs regex c a None w2) as Hsel
      by (unfold collectSelected; by rewrite Hregex).
    rewrite Hmode'. rewrite <-Hsel, Hmode in Hf, Ht, Hall. rewrite Hmode.
    destruct (collectMatching E args' regex c a None w2) as [[f' w3'] t3'].
    cbn [fst snd] in Hf, Ht. subst f' t3'.
    rewrite !closeClusterAdmin_answer, !closeClient_answer. cbn [fst snd].
    split; [done|]. split.
    - change (until_close
                ([ECreateClient (c, None); ECreateClusterAdmin (a, None)] ++ t3
                   ++ closing a (ClusterAdmin_Close E a w3).1 c
                        (Client_Close E c (ClusterAdmin_Close E a w3).2).1)
              = until_close
                  ([ECreateClient (c, None); ECreateClusterAdmin (a, None)] ++ t3
                     ++ closing a (ClusterAdmin_Close E a w3').1 c
                          (Client_Close E c (ClusterAdmin_Close E a w3').2).1)).
      rewrite !app_assoc, !until_close_body; [done| |].
      all: apply Forall_app; split; [each_event | exact Hno].
    - intros Hwait. specialize (Hall Hwait). by injection Hall as ->. }
  destruct (Collect_cases E GlobalArgs w)
    as [(c & e & w1 & _ & ->)
       |[(c & w1 & a & e & w2 & rc & w3 & _ & _ & _ & ->)
        |(c & a & w2 & f & w3 & t3 & ra & w4 & rc & w5 & _ & Hmode & _ & _ & ->)]];
    cbn [snd].
  - split; [each_event | done].
  - split; [|by destruct rc].
    do 3 (apply Forall_cons_2; [simpl; tauto|]). destruct rc; each_event.
  - destruct (collectSelected_kinds E GlobalArgs c a w2)
      as (f' & w3' & t3' & Hmode' & Hstatic & _ & _ & Hwarn & _).
    rewrite Hmode in Hmode'. injection Hmode' as <- <- <-. split.
    + do 2 (apply Forall_cons_2; [simpl; tauto|]). apply Forall_app. split.
      * apply Hstatic. by rewrite Hregex.
      * eapply Forall_impl; [apply closing_only_close|]. intros []; simpl; tauto.
    + rewrite logged_around, Hwarn, logged_closing by done.
      rewrite decide_False; [done|]. rewrite Hregex. by intros [? _].
Qed.

(** X5.  Without a regex nothing of the regex mode happens: the groups
    of the cluster are neither listed nor described, no task is started
    and the wait group is not used, so the configured groups are
    collected one after the other by [Collect] itself.  The deprecation
    warning of line 97 is written once in the runs that return nil, and
    not at all in the others. *)
Theorem static_mode_is_sequential_and_warns_once
    (E : Env) (GlobalArgs : ArgumentList) (w : World E) :
  ConsumerGroupRegex GlobalArgs = None →
  Forall (λ ev, ¬ is_regex_only ev) (Collect E GlobalArgs w).2
  ∧ logged LWarn "Argument 'consumer_groups' is deprecated and will be removed in a future version. Use 'consumer_group_regex' instead." (Collect E GlobalArgs w).2
    = match (Collect E GlobalArgs w).1.1.2 with None => [[]] | Some _ => [] end.
Proof.
  intros Hregex.
  destruct (Collect_cases E GlobalArgs w)
    as [(c & e & w1 & _ & ->)
       |[(c & w1 & a & e & w2 & rc & w3 & _ & _ & _ & ->)
        |(c & a & w2 & f & w3 & t3 & ra & w4 & rc & w5 & _ & Hmode & _ & _ & ->)]];
    cbn [fst snd].
  - split; [each_event | done].
  - split; [|by destruct rc].
    do 3 (apply Forall_cons_2; [simpl; tauto|]). destruct rc; each_event.
  - destruct (collectSelected_kinds E GlobalArgs c a w2)
      as (f' & w3' & t3' & Hmode' & _ & Hseq & _ & Hwarn & _ & _ & Hf).
    rewrite Hmode in Hmode'. injection Hmode' as <- <- <-. split.
    + do 2 (apply Forall_cons_2; [simpl; tauto|]). apply Forall_app. split.
      * by apply Hseq.
      * eapply Forall_impl; [apply closing_only_close|]. intros []; simpl; tauto.
    + rewrite logged_around, Hwarn, logged_closing, (Hf Hregex), app_nil_r by done.
      destruct (decide (size (ConsumerGroups GlobalArgs) ≠ 0)) as [Hsize|Hsize].
      * by rewrite decide_True.
      * by rewrite decide_False by (by intros [_ ?]).
Qed.

(** X6.  The wait group is balanced in every run.  Either it is not
    used and no task is started, or its use is: [wg.Add(1)] immediately
    before each go statement, as many times as there are go statements,
    and one [wg.Wait] after all of them; in that case the run returns
    nil.  So [Collect] never waits for a task that it did not count, and
    never returns an error after starting a task. *)
Theorem wait_group_is_balanced (E : Env) (GlobalArgs : ArgumentList) (w : World E) :
  let run := Collect E GlobalArgs w in
  (wait_group run.2 = [] ∧ spawned run.2 = [])
  ∨ (run.1.1 = (Line126, None)
     ∧ wait_group run.2 = (spawned run.2 ≫= λ _, [WgAdd 1; WgGo]) ++ [WgWait]).
Proof.
  intros run. subst run.
  destruct (Collect_cases E GlobalArgs w)
    as [(c & e & w1 & _ & ->)
       |[(c & w1 & a & e & w2 & rc & w3 & _ & _ & _ & ->)
        |(c & a & w2 & f & w3 & t3 & ra & w4 & rc & w5 & _ & Hmode & _ & _ & ->)]];
    cbn [fst snd].
  - by left.
  - left. by destruct rc.
  - destruct (collectSelected_kinds E GlobalArgs c a w2)
      as (f' & w3' & t3' & Hmode' & _ & _ & Hwg & _).
    rewrite Hmode in Hmode'. injection Hmode' as <- <- <-.
    destruct (wait_group_around E c None a None t3 ra rc) as [-> ->].
    destruct Hwg as [Hwg|[-> Hwg]]; [by left | by right].
Qed.

(** X7.  A failed creation is returned as it is, and a handle that was
    not created is not closed.  When [CreateClient] fails, [Collect]
    returns its error unchanged from line 31 and makes no other call.
    When [CreateClusterAdmin] fails, [Collect] returns its error
    unchanged from line 41 (it is not wrapped, unlike the errors of
    lines 57 and 66), having closed the client and nothing else: the
    cluster admin is not closed and no mode is entered. *)
Theorem creation_failure_is_returned_as_it_is
    (E : Env) (GlobalArgs : ArgumentList) (w : World E) :
  (∀ c e w1,
     CreateClient E w = ((c, Some e), w1) →
     Collect E GlobalArgs w = ((Line31, Some e), w1, [ECreateClient (c, Some e)]))
  ∧ (∀ c w1 a e w2,
       CreateClient E w = ((c, None), w1) →
       CreateClusterAdmin E w1 = ((a, Some e), w2) →
       Collect E GlobalArgs w
       = ((Line41, Some e), (Client_Close E c w2).2,
          ECreateClient (c, None) :: ECreateClusterAdmin (a, Some e)
            :: EClientClose c (Client_Close E c w2).1
            :: close_log "Error closing client connection: %s" (Client_Close E c w2).1)
       ∧ admin_closes (Collect E GlobalArgs w).2 = []
       ∧ Forall (λ ev, ¬ is_regex_only ev ∧ ¬ is_static_only ev) (Collect E GlobalArgs w).2).
Proof.
  split.
  - intros c e w1 Hc. by rewrite Collect_unfold, Hc.
  - intros c w1 a e w2 Hc Ha.
    rewrite Collect_unfold, Hc, Ha, closeClient_answer.
    split; [done|]. cbn [snd]. destruct (Client_Close E c w2).1.
    + split; [done | each_event].
    + split; [done | each_event].
Qed.

(** X8.  A failed close is logged and does not change the result.  In
    a run with both handles, the value [Collect] returns is the one the
    chosen mode gave, fixed before the deferred closures run; the
    cluster admin is closed in the world the mode left and the client in
    the world that close left; and each close that fails writes exactly
    one Debug entry with its error, which no other part of the run
    writes. *)
Theorem close_failure_is_logged_not_returned
    (E : Env) (GlobalArgs : ArgumentList) (w : World E)
    (c : Client E) (a : ClusterAdmin E) (w2 : World E) :
  reaches_selection E w c a w2 →
  ∃ f w3 body,
    collectSelected E GlobalArgs c a None w2 = (f, w3, body)
    ∧ let ra := ClusterAdmin_Close E a w3 in
      let rc := Client_Close E c ra.2 in
      let run := Collect E GlobalArgs w in
      run = (exit_of f, rc.2,
             ECreateClient (c, None) :: ECreateClusterAdmin (a, None)
               :: body ++ closing a ra.1 c rc.1)
      ∧ logged LDebug "Error closing clusterAdmin connection: %s" run.2
        = match ra.1 with Some e => [[AString (Error e)]] | None => [] end
      ∧ logged LDebug "Error closing client connection: %s" run.2
        = match rc.1 with Some e => [[AString (Error e)]] | None => [] end.
Proof.
  intros (w1 & Hc & Ha).
  destruct (collectSelected_kinds E GlobalArgs c a w2)
    as (f & w3 & t3 & Hmode & _ & _ & _ & _ & Hadmin & Hclient & _).
  exists f, w3, t3. split; [exact Hmode|]. intros ra rc run. subst ra rc run.
  assert (Collect E GlobalArgs w
          = (exit_of f, (Client_Close E c (ClusterAdmin_Close E a w3).2).2,
             ECreateClient (c, None) :: ECreateClusterAdmin (a, None)
               :: t3 ++ closing a (ClusterAdmin_Close E a w3).1 c
                          (Client_Close E c (ClusterAdmin_Close E a w3).2).1)) as ->.
  { rewrite Collect_unfold, Hc, Ha, Hmode, closeClusterAdmin_answer, closeClient_answer.
    reflexivity. }
  split; [done|]. cbn [snd].
  rewrite !logged_around, Hadmin, Hclient.
  apply logged_close_entries.
Qed.

(** ** The further properties at concrete runs *)

(** X1 at two records, the second of which cannot be marshalled. *)
Lemma setMetrics_marshals_every_record_witness :
  let data := [ mkPartitionOffsets "orders" "0" (Some 100%Z) (Some 150%Z) (Some 50%Z);
                mkPartitionOffsets "orders" "1" None (Some 200%Z) None ] in
  let run := setMetrics flaky_env static_args "orders-app" data 5 in
  run.1.1 = None
  ∧ (∃ blocks,
       run.2 = EEntity (E:=flaky_env) "orders-app" "ka-consumerGroup"
                 (clusterIDAttr static_args) ("orders-app", None)
               :: concat blocks
       ∧ Forall2 (record_block (E:=flaky_env) "orders-app" "orders-app") data blocks)
  ∧ records run.2 = data
  ∧ metric_sets run.2
    = replicate (length data)
        ("orders-app", "KafkaOffsetSample", sample_attributes (E:=flaky_env) "orders-app")
  ∧ logged LError "Error Marshaling offset metrics for consumer group '%s': %s" run.2
    = (λ err, [AString "orders-app"; AString (Error err)]) <$> marshal_failures run.2.
Proof.
  intros data run.
  apply (setMetrics_marshals_every_record flaky_env static_args "orders-app" data 5
           "orders-app" 6).
  reflexivity.
Defined.

(** X2 at a run in which the entity of the group payments cannot be had. *)
Lemma emission_failure_is_logged_and_isolated_witness :
  (Collect flaky_env static_args 0).1.1 = (Line126, None)
  ∧ rangeMap flaky_env (ConsumerGroups static_args)
    ≡ₚ map_to_list (ConsumerGroups static_args)
  ∧ ∃ blocks,
      static_history (E:=flaky_env) tt tt blocks (Collect flaky_env static_args 0).2
      ∧ Forall2 (λ entry blk,
           ∃ tp rest,
             collection_of (E:=flaky_env) tt entry tp rest blk
             ∧ ((size tp = 0 ∧ entities blk = [])
                ∨ ∃ ent eerr,
                    entities blk
                    = [(entry.1, "ka-consumerGroup", clusterIDAttr static_args, (ent, eerr))]
                    ∧ logged LError "Error setting metrics for consumer group '%s': %s" blk
                      = match eerr with
                        | Some e => [[AString entry.1; AString (Error e)]]
                        | None => []
                        end
                    ∧ (is_Some eerr → metric_sets blk = [] ∧ records blk = [])))
          (rangeMap flaky_env (ConsumerGroups static_args)) blocks.
Proof.
  apply (emission_failure_is_logged_and_isolated flaky_env static_args 0 tt tt 2).
  - reflexivity.
  - vm_compute. lia.
  - exists 1. split; reflexivity.
Defined.

(** X3 at the same run. *)
Lemma emitted_records_are_assembled_from_both_reads_witness :
  ∃ blocks,
    static_history (E:=flaky_env) tt tt blocks (Collect flaky_env static_args 0).2
    ∧ records (Collect flaky_env static_args 0).2 = blocks ≫= records
    ∧ Forall2 (λ entry blk,
         ∃ tp rest,
           collection_of (E:=flaky_env) tt entry tp rest blk
           ∧ ((size tp = 0 ∧ records blk = [])
              ∨ ∃ o e1 h e2 ent eerr mid post,
                  rest = EGetConsumerOffsets (E:=flaky_env) entry.1 tp tt (o, e1)
                         :: mid ++ EGetHighWaterMarks (E:=flaky_env) tp tt (h, e2) :: post
                  ∧ entities blk
                    = [(entry.1, "ka-consumerGroup", clusterIDAttr static_args, (ent, eerr))]
                  ∧ records blk
                    = match eerr with
                      | None => populateOffsetStructs flaky_env o h
                      | Some _ => []
                      end
                  ∧ metric_sets blk
                    = match eerr with
                      | None => replicate (length (populateOffsetStructs flaky_env o h))
                                  (ent, "KafkaOffsetSample", sample_attributes ent)
                      | Some _ => []
                      end))
        (rangeMap flaky_env (ConsumerGroups static_args)) blocks.
Proof.
  apply (emitted_records_are_assembled_from_both_reads flaky_env static_args 0 tt tt 2).
  - reflexivity.
  - vm_compute. lia.
  - exists 1. split; reflexivity.
Defined.

(** X5 at a run of the static mode. *)
Lemma static_mode_is_sequential_and_warns_once_witness :
  Forall (λ ev, ¬ is_regex_only ev) (Collect static_env static_args 0).2
  ∧ logged LWarn "Argument 'consumer_groups' is deprecated and will be removed in a future version. Use 'consumer_group_regex' instead." (Collect static_env static_args 0).2
    = match (Collect static_env static_args 0).1.1.2 with None => [[]] | Some _ => [] end.
Proof.
  apply (static_mode_is_sequential_and_warns_once static_env static_args 0).
  reflexivity.
Defined.

(** X7 at a zookeeper that gives no client, and at one that gives a
    client and no cluster admin. *)
Lemma creation_failure_is_returned_as_it_is_witness :
  Collect zookeeper_down static_args 0
  = ((Line31, Some (mkError "zookeeper is down")), 1,
     [ECreateClient (E:=zookeeper_down) (tt, Some (mkError "zookeeper is down"))])
  ∧ (Collect admin_down static_args 0).1.1 = (Line41, Some (mkError "no brokers"))
  ∧ admin_closes (Collect admin_down static_args 0).2 = [].
Proof.
  split.
  - apply (proj1 (creation_failure_is_returned_as_it_is zookeeper_down static_args 0) tt).
    reflexivity.
  - destruct (proj2 (creation_failure_is_returned_as_it_is admin_down static_args 0)
                tt 1 tt (mkError "no brokers") 2 eq_refl eq_refl) as (Hrun & Hadmin & _).
    split; [by rewrite Hrun | exact Hadmin].
Defined.

(** X8 at a run in which closing the client fails. *)
Lemma close_failure_is_logged_not_returned_witness :
  (Collect flaky_env static_args 0).1.1 = (Line126, None)
  ∧ logged LDebug "Error closing clusterAdmin connection: %s" (Collect flaky_env static_args 0).2
    = []
  ∧ logged LDebug "Error closing client connection: %s" (Collect flaky_env static_args 0).2
    = [[AString "connection reset"]].
Proof.
  destruct (close_failure_is_logged_not_returned flaky_env static_args 0 tt tt 2)
    as (f & w3 & body & Hmode & Hrun & Hadmin & Hclient).
  { exists 1. split; reflexivity. }
  split; [|split; [exact Hadmin | exact Hclient]].
  rewrite Hrun. cbn [fst].
  destruct (Collect_static flaky_env static_args 0 tt tt 2) as (blocks & Hresult & _).
  - reflexivity.
  - vm_compute. lia.
  - exists 1. split; reflexivity.
  - rewrite Hrun in Hresult. exact Hresult.
Defined.



(** C8 at a run of the regex mode that starts 200 tasks. *)
Lemma handles_are_closed_on_every_exit_witness :
  client_closes (Collect regex_env regex_args 0).2 = [tt]
  ∧ admin_closes (Collect regex_env regex_args 0).2 = [tt]
  ∧ ∃ f w3 body wj,
      collectSelected regex_env regex_args tt tt None 2 = (f, w3, body)
      ∧ wait_group body = (go_statements body ≫= λ _, [WgAdd 1; WgGo]) ++ [WgWait]
      ∧ w3 = WaitGroup_Wait regex_env regex_args
               (Z.of_nat (length (go_statements body))) (go_statements body) wj
      ∧ (Collect regex_env regex_args 0).2
        = ECreateClient (E:=regex_env) (tt, None)
            :: ECreateClusterAdmin (E:=regex_env) (tt, None)
            :: body
            ++ closing (E:=regex_env) tt (ClusterAdmin_Close regex_env tt w3).1
                 tt (Client_Close regex_env tt (ClusterAdmin_Close regex_env tt w3).2).1.
Proof.
  pose proof (handles_are_closed_on_every_exit regex_env regex_args 0) as Hrun.
  cbv zeta in Hrun. destruct Hrun as [Hclient Hadmin].
  destruct (Hclient tt 1 eq_refl) as [Hclosed _].
  destruct (Hadmin tt tt 2) as (Hclosed' & f & w3 & body & Hmode & Htr & _ & _ & _ & Hjoin).
  { exists 1. split; reflexivity. }
  split; [exact Hclosed|]. split; [exact Hclosed'|].
  destruct Hjoin as [[_ Hnone]|(pre & wj & _ & Hwg & Hw3)].
  - exfalso.
    assert (wait_group (collectSelected regex_env regex_args tt tt None 2).2 ≠ []) as Hused
      by (by vm_compute).
    rewrite Hmode in Hused. by apply Hused.
  - exists f, w3, body, wj.
    split; [exact Hmode|]. split; [exact Hwg|]. split; [exact Hw3 | exact Htr].
Defined.

(** X4 at a run with both a regex and a mapping configured. *)
Lemma regex_mode_takes_precedence_witness :
  (∀ groups name,
     let args' := mkArgs (Some starts_with_g) groups name in
     (Collect regex_env both_args 0).1.1 = (Collect regex_env args' 0).1.1
     ∧ until_close (Collect regex_env both_args 0).2 = until_close (Collect regex_env args' 0).2
     ∧ ((∀ n tasks w',
           WaitGroup_Wait regex_env both_args n tasks w'
           = WaitGroup_Wait regex_env args' n tasks w') →
        Collect regex_env both_args 0 = Collect regex_env args' 0))
  ∧ Forall (λ ev, ¬ is_static_only ev) (Collect regex_env both_args 0).2
  ∧ logged LWarn "Argument 'consumer_groups' is deprecated and will be removed in a future version. Use 'consumer_group_regex' instead." (Collect regex_env both_args 0).2 = [].
Proof.
  apply (regex_mode_takes_precedence regex_env both_args starts_with_g 0).
  reflexivity.
Defined.
